(** * stdout2prom: the line-classification and metric-update engine

    A shallow embedding of [main], [getValue], [getLabels] and [indexOf]
    of stdout2prom (the variant with named value and label groups), and
    the properties of its per-line processing.

    The regular-expression engine, [strconv.ParseFloat] and the Prometheus
    client are external to the repository.  The first two are taken as an
    interface ([Externals]); the collectors and the registry are modelled
    by the part of their contract the program relies on. *)

From Stdlib Require Import ZArith Ascii String List Lia.
From stdpp Require Import base strings list gmap.

Open Scope string_scope.

(** ** External collaborators *)

(** [regexp.Compile] (failure makes [regexp.MustCompile] panic),
    [Regexp.SubexpNames], [Regexp.FindStringSubmatch] (a nil slice is
    the empty list) and [strconv.ParseFloat s 64] ([None] when it returns
    an error; the program discards the float returned with an error). *)
Class Externals : Type := {
  Regexp : Type;
  Compile : string → option Regexp;
  SubexpNames : Regexp → list string;
  FindStringSubmatch : Regexp → string → list string;
  float64 : Type;
  float64_zero : float64;
  ParseFloat : string → option float64;
}.

(** ** Data model *)

(** The four collector kinds of the Prometheus client the program creates.
    A counter holds a count (the client keeps integral increments in an
    unsigned integer); a vector holds its label names, fixed at
    construction, and one series per tuple of label values. *)
Inductive Collector `{Externals} : Type :=
| Counter (v : nat)
| CounterVec (names : list string) (series : gmap (list string) nat)
| Gauge (v : float64)
| GaugeVec (names : list string) (series : gmap (list string) float64).

Arguments Counter {_} v.
Arguments CounterVec {_} names series.
Arguments Gauge {_} v.
Arguments GaugeVec {_} names series.

Inductive Shape : Type := IsCounter | IsCounterVec | IsGauge | IsGaugeVec.

(** What a registry entry refers to: a user metric's collector (by its
    address in the heap) or one of the program's own counters. *)
Inductive CollectorRef : Type :=
| UserCollector (addr : nat)
| TotalLines
| BytesRead
| MatchedLines
| BadFloats.

(** One element of [Data.Metrics].  [Collector] and [Compiled] are nil
    until [main] fills them in. *)
Record Metric `{Externals} : Type := mkMetric {
  Name : string;
  Description : string;
  Regex : string;
  Value : string;
  Labels : list string;
  Collector_ : option nat;
  Compiled : option Regexp;
  GroupName : list string;
}.

Arguments mkMetric {_}.

Record Data `{Externals} : Type := mkData {
  Basename : string;
  EatMatches : bool;
  EatAll : bool;
  Listen : string;
  Path : string;
  Metrics : list Metric;
}.

Arguments mkData {_}.

Inductive error : Type :=
| ErrParseFloat
| ErrLabelNotFound.

Inductive PanicKind : Type :=
| IndexOutOfRange (idx : Z) (len : nat)
| NilDereference
| TypeAssertion
| InconsistentCardinality
| RegexpSyntax (pattern : string)
| AlreadyRegistered (name : string).

(** The mutable state of the process: the heap of user collectors, the
    default registry, the four package-level counters, the package-level
    variables [labels] and [value], what was printed on standard output
    (one entry per [fmt.Println]) and what was logged unconditionally. *)
Record State `{Externals} : Type := mkState {
  heap : list Collector;
  registry : list (string * CollectorRef);
  totalLines : nat;
  bytesRead : nat;
  matchedLines : nat;
  badFloats : nat;
  labels : gmap string string;
  value : float64;
  stdout : list string;
  logged : list string;
}.

Arguments mkState {_}.

Inductive Outcome (A : Type) : Type :=
| Ret (a : A)
| Panic (p : PanicKind).
Arguments Ret {A} a.
Arguments Panic {A} p.

Section Engine.
Context `{E : Externals}.

(** ** A state monad in which a panic keeps the state reached so far *)

Definition M (A : Type) : Type := State → Outcome A * State.

Definition ret {A} (a : A) : M A := fun s => (Ret a, s).
Definition panic {A} (p : PanicKind) : M A := fun s => (Panic p, s).
Definition bind {A B} (c : M A) (k : A → M B) : M B :=
  fun s => match c s with
           | (Ret a, s') => k a s'
           | (Panic p, s') => (Panic p, s')
           end.
Definition modify (f : State → State) : M unit := fun s => (Ret tt, f s).
Definition get : M State := fun s => (Ret s, s).

Notation "'dlet' x := c 'in' k" := (bind c (fun x => k))
  (at level 10, x name, c at level 100, k at level 200).

Definition set_heap (h : list Collector) (s : State) : State :=
  mkState h (registry s) (totalLines s) (bytesRead s) (matchedLines s)
          (badFloats s) (labels s) (value s) (stdout s) (logged s).
Definition set_registry (r : list (string * CollectorRef)) (s : State) : State :=
  mkState (heap s) r (totalLines s) (bytesRead s) (matchedLines s)
          (badFloats s) (labels s) (value s) (stdout s) (logged s).
Definition set_totalLines (n : nat) (s : State) : State :=
  mkState (heap s) (registry s) n (bytesRead s) (matchedLines s)
          (badFloats s) (labels s) (value s) (stdout s) (logged s).
Definition set_bytesRead (n : nat) (s : State) : State :=
  mkState (heap s) (registry s) (totalLines s) n (matchedLines s)
          (badFloats s) (labels s) (value s) (stdout s) (logged s).
Definition set_matchedLines (n : nat) (s : State) : State :=
  mkState (heap s) (registry s) (totalLines s) (bytesRead s) n
          (badFloats s) (labels s) (value s) (stdout s) (logged s).
Definition set_badFloats (n : nat) (s : State) : State :=
  mkState (heap s) (registry s) (totalLines s) (bytesRead s) (matchedLines s)
          n (labels s) (value s) (stdout s) (logged s).
Definition set_labels (l : gmap string string) (s : State) : State :=
  mkState (heap s) (registry s) (totalLines s) (bytesRead s) (matchedLines s)
          (badFloats s) l (value s) (stdout s) (logged s).
Definition set_value (v : float64) (s : State) : State :=
  mkState (heap s) (registry s) (totalLines s) (bytesRead s) (matchedLines s)
          (badFloats s) (labels s) v (stdout s) (logged s).
Definition set_stdout (o : list string) (s : State) : State :=
  mkState (heap s) (registry s) (totalLines s) (bytesRead s) (matchedLines s)
          (badFloats s) (labels s) (value s) o (logged s).
Definition set_logged (o : list string) (s : State) : State :=
  mkState (heap s) (registry s) (totalLines s) (bytesRead s) (matchedLines s)
          (badFloats s) (labels s) (value s) (stdout s) o.

(** ** The Prometheus client, as the program uses it *)

(** [Counter.Inc] and [Counter.Add] on the program's own counters. *)
Definition totalLines_Inc : M unit :=
  modify (fun s => set_totalLines (totalLines s + 1) s).
Definition bytesRead_Add (n : nat) : M unit :=
  modify (fun s => set_bytesRead (bytesRead s + n) s).
Definition matchedLines_Inc : M unit :=
  modify (fun s => set_matchedLines (matchedLines s + 1) s).
Definition badFloats_Inc : M unit :=
  modify (fun s => set_badFloats (badFloats s + 1) s).

(** The label values that select a series of a vector, in the order of
    its label names.  [GetMetricWith] returns an error (and [With]
    panics) unless the mapping has exactly as many entries as the vector
    has label names and holds every one of them. *)
Definition labelValues (names : list string) (l : gmap string string)
  : option (list string) :=
  if decide (size l = length names) then mapM (fun n => l !! n) names else None.

Definition shape (c : Collector) : Shape :=
  match c with
  | Counter _ => IsCounter
  | CounterVec _ _ => IsCounterVec
  | Gauge _ => IsGauge
  | GaugeVec _ _ => IsGaugeVec
  end.

(** Dereferencing the interface value held in [metric.Collector]. *)
Definition collectorAt (c : option nat) : M (nat * Collector) :=
  match c with
  | None => panic TypeAssertion
  | Some a =>
      dlet s := get in
      match heap s !! a with
      | Some col => ret (a, col)
      | None => panic NilDereference
      end
  end.

Definition store (a : nat) (c : Collector) : M unit :=
  modify (fun s => set_heap (<[a := c]> (heap s)) s).

(** [Inc()] on [metric.Collector] asserted to be a Counter *)
Definition Counter_Inc (c : option nat) : M unit :=
  dlet ac := collectorAt c in
  match ac with
  | (a, Counter v) => store a (Counter (v + 1))
  | _ => panic TypeAssertion
  end.

(** [With(labels).Inc()] on [metric.Collector] asserted to be a CounterVec *)
Definition CounterVec_With_Inc (c : option nat) (l : gmap string string)
  : M unit :=
  dlet ac := collectorAt c in
  match ac with
  | (a, CounterVec names series) =>
      match labelValues names l with
      | Some k => store a (CounterVec names
                             (<[k := default 0 (series !! k) + 1]> series))
      | None => panic InconsistentCardinality
      end
  | _ => panic TypeAssertion
  end.

(** [Set(value)] on [metric.Collector] asserted to be a Gauge *)
Definition Gauge_Set (c : option nat) (v : float64) : M unit :=
  dlet ac := collectorAt c in
  match ac with
  | (a, Gauge _) => store a (Gauge v)
  | _ => panic TypeAssertion
  end.

(** [With(labels).Set(value)] on [metric.Collector] asserted to be a GaugeVec *)
Definition GaugeVec_With_Set (c : option nat) (l : gmap string string)
  (v : float64) : M unit :=
  dlet ac := collectorAt c in
  match ac with
  | (a, GaugeVec names series) =>
      match labelValues names l with
      | Some k => store a (GaugeVec names (<[k := v]> series))
      | None => panic InconsistentCardinality
      end
  | _ => panic TypeAssertion
  end.

(** [prometheus.MustRegister]: a second collector under a name already
    registered is refused, and the refusal is a panic. *)
Definition MustRegister (name : string) (r : CollectorRef) : M unit :=
  dlet s := get in
  if decide (name ∈ (registry s).*1)
  then panic (AlreadyRegistered name)
  else modify (set_registry (registry s ++ [(name, r)])).

(** ** The program's helpers *)

Fixpoint indexOf_from (k : Z) (word : string) (data : list string) : Z :=
  match data with
  | [] => (-1)%Z
  | v :: rest =>
      if decide (word = v) then k else indexOf_from (k + 1)%Z word rest
  end.

Definition indexOf (word : string) (data : list string) : Z :=
  indexOf_from 0%Z word data.

(** A slice index expression [results[idx]]. *)
Definition elemAt (results : list string) (idx : Z) : M string :=
  if (idx <? 0)%Z then panic (IndexOutOfRange idx (length results))
  else match results !! Z.to_nat idx with
       | Some x => ret x
       | None => panic (IndexOutOfRange idx (length results))
       end.

Definition getValue (valueName : string) (groupNames results : list string)
  : M (float64 * option error) :=
  let idx := indexOf valueName groupNames in
  dlet r := elemAt results idx in
  match ParseFloat r with
  | None => ret (float64_zero, Some ErrParseFloat)
  | Some v => ret (v, None)
  end.

Fixpoint getLabels_loop (labelNames groupNames results : list string)
  (val : gmap string string) : M (gmap string string * option error) :=
  match labelNames with
  | [] => ret (val, None)
  | labelName :: rest =>
      let idx := indexOf labelName groupNames in
      if decide (idx = (-1)%Z) then ret (∅, Some ErrLabelNotFound)
      else dlet r := elemAt results idx in
           getLabels_loop rest groupNames results (<[labelName := r]> val)
  end.

Definition getLabels (labelNames groupNames results : list string)
  : M (gmap string string * option error) :=
  getLabels_loop labelNames groupNames results ∅.

(** ** [main]: start-up *)

(** The collector [main] creates for one metric, from whether a value
    group is named and whether there are labels. *)
Definition newCollector (metric : Metric) : Collector :=
  if decide (Value metric ≠ EmptyString) then
    if decide (0 < length (Labels metric))
    then GaugeVec (Labels metric) ∅
    else Gauge float64_zero
  else
    if decide (0 < length (Labels metric))
    then CounterVec (Labels metric) ∅
    else Counter 0.

(** Allocation of a collector: its address is the next free heap slot. *)
Definition alloc (c : Collector) : M nat :=
  dlet s := get in
  dlet _ := modify (set_heap (heap s ++ [c])) in
  ret (length (heap s)).

(** The body of the loop over [cnf.Metrics] at start-up. *)
Definition startMetric (basename : string) (metric : Metric) : M Metric :=
  let metricName := basename ++ "_" ++ Name metric in
  match Compile (Regex metric) with
  | None => panic (RegexpSyntax (Regex metric))
  | Some re =>
      let groupName := SubexpNames re in
      dlet a := alloc (newCollector metric) in
      dlet _ := MustRegister metricName (UserCollector a) in
      ret (mkMetric (Name metric) (Description metric) (Regex metric)
             (Value metric) (Labels metric) (Some a) (Some re) groupName)
  end.

Fixpoint startMetrics (basename : string) (metrics : list Metric)
  : M (list Metric) :=
  match metrics with
  | [] => ret []
  | metric :: rest =>
      dlet m := startMetric basename metric in
      dlet ms := startMetrics basename rest in
      ret (m :: ms)
  end.

Definition startup (cnf : Data) : M Data :=
  dlet ms := startMetrics (Basename cnf) (Metrics cnf) in
  dlet _ := MustRegister "stdout2prom_lines_parsed_total" TotalLines in
  dlet _ := MustRegister "stdout2prom_bytes_read_total" BytesRead in
  dlet _ := MustRegister "stdout2prom_matched_lines_total" MatchedLines in
  ret (mkData (Basename cnf) (EatMatches cnf) (EatAll cnf) (Listen cnf)
         (Path cnf) ms).

(** ** [main]: the loop over the lines of standard input *)

Definition fmt_Println (line : string) : M unit :=
  modify (fun s => set_stdout (stdout s ++ [line]) s).
Definition log_Println (msg : string) : M unit :=
  modify (fun s => set_logged (logged s ++ [msg]) s).

(** The dispatch on the metric's kind that ends the loop body; it reads
    the package-level [labels] and [value]. *)
Definition update (metric : Metric) : M unit :=
  dlet s := get in
  if decide (Value metric = EmptyString) then
    if decide (0 < length (Labels metric))
    then CounterVec_With_Inc (Collector_ metric) (labels s)
    else Counter_Inc (Collector_ metric)
  else
    if decide (0 < length (Labels metric))
    then GaugeVec_With_Set (Collector_ metric) (labels s) (value s)
    else Gauge_Set (Collector_ metric) (value s).

(** The value part of the loop body; [false] stands for [continue]. *)
Definition extractValue (metric : Metric) (result : list string) : M bool :=
  if decide (Value metric ≠ EmptyString) then
    dlet ve := getValue (Value metric) (GroupName metric) result in
    dlet _ := modify (set_value ve.1) in
    match ve.2 with
    | Some _ => dlet _ := badFloats_Inc in ret false
    | None => ret true
    end
  else ret true.

(** The label part of the loop body. *)
Definition extractLabels (metric : Metric) (result : list string) : M unit :=
  if decide (0 < length (Labels metric)) then
    dlet le := getLabels (Labels metric) (GroupName metric) result in
    dlet _ := modify (set_labels le.1) in
    match le.2 with
    | Some _ => log_Println "problems finding labels"
    | None => ret tt
    end
  else ret tt.

(** What the loop body does once the pattern has matched, after it has
    counted the match: value, labels, update. *)
Definition onMatch (metric : Metric) (result : list string) : M unit :=
  dlet proceed := extractValue metric result in
  if proceed : bool then
    dlet _ := extractLabels metric result in
    update metric
  else ret tt.

(** The body of the loop over [cnf.Metrics] for one line; the result is
    the value of [matchFound] after it. *)
Definition processMetric (line : string) (matchFound : bool)
  (metric : Metric) : M bool :=
  match Compiled metric with
  | None => panic NilDereference
  | Some re =>
      let result := FindStringSubmatch re line in
      if decide (length result ≠ 0) then
        dlet _ := matchedLines_Inc in
        dlet _ := onMatch metric result in
        ret true
      else ret matchFound
  end.

Fixpoint processMetrics (line : string) (matchFound : bool)
  (metrics : list Metric) : M bool :=
  match metrics with
  | [] => ret matchFound
  | metric :: rest =>
      dlet mf := processMetric line matchFound metric in
      processMetrics line mf rest
  end.

(** The three tests that end the body of the scanner loop. *)
Definition forwarded (eatAll eatMatches matchFound : bool) : bool :=
  if eatAll then false
  else if matchFound && eatMatches then false
  else true.

(** The body of the scanner loop; [line] is [scanner.Text()], the line
    without its terminator. *)
Definition processLine (cnf : Data) (line : string) : M unit :=
  dlet _ := totalLines_Inc in
  dlet _ := bytesRead_Add (String.length line) in
  dlet matchFound := processMetrics line false (Metrics cnf) in
  if forwarded (EatAll cnf) (EatMatches cnf) matchFound
  then fmt_Println line
  else ret tt.

Fixpoint scanLoop (cnf : Data) (lines : list string) : M unit :=
  match lines with
  | [] => ret tt
  | line :: rest => dlet _ := processLine cnf line in scanLoop cnf rest
  end.

Definition main (cnf : Data) (lines : list string) : M unit :=
  dlet cnf' := startup cnf in
  scanLoop cnf' lines.

(** The state [main] starts in. *)
Definition initState : State :=
  mkState [] [] 0 0 0 0 ∅ float64_zero [] [].

End Engine.

(** * The variant of [stdout2prom.go]

    The earlier [main] kept in [stdout2prom.go]: a metric is a gauge or a
    counter by a boolean, it has no labels, and the value of a gauge is
    the first submatch.  It runs on the same state and collectors. *)
Module GaugeFlag.
Section Engine.
Context `{E : Externals}.

Notation "'dlet' x := c 'in' k" := (bind c (fun x => k))
  (at level 10, x name, c at level 100, k at level 200).

(** One element of [Data.Metrics]; [Gauge_] is the field [Gauge]. *)
Record Metric : Type := mkMetric {
  Name : string;
  Description : string;
  Regex : string;
  Gauge_ : bool;
  Collector_ : option nat;
  Compiled : option Regexp;
}.

Record Data : Type := mkData {
  Basename : string;
  EatMatches : bool;
  EatAll : bool;
  Listen : string;
  Path : string;
  Metrics : list Metric;
}.

(** ** [main]: start-up *)

Definition newCollector (metric : Metric) : Collector :=
  if Gauge_ metric then Gauge float64_zero else Counter 0.

(** The body of the loop over [cnf.Metrics] at start-up: the collector
    is created and registered before the pattern is compiled. *)
Definition startMetric (basename : string) (metric : Metric) : M Metric :=
  let metricName := basename ++ "_" ++ Name metric in
  dlet a := alloc (newCollector metric) in
  dlet _ := MustRegister metricName (UserCollector a) in
  match Compile (Regex metric) with
  | None => panic (RegexpSyntax (Regex metric))
  | Some re =>
      ret (mkMetric (Name metric) (Description metric) (Regex metric)
             (Gauge_ metric) (Some a) (Some re))
  end.

Fixpoint startMetrics (basename : string) (metrics : list Metric)
  : M (list Metric) :=
  match metrics with
  | [] => ret []
  | metric :: rest =>
      dlet m := startMetric basename metric in
      dlet ms := startMetrics basename rest in
      ret (m :: ms)
  end.

Definition startup (cnf : Data) : M Data :=
  dlet ms := startMetrics (Basename cnf) (Metrics cnf) in
  dlet _ := MustRegister "stdout2prom_lines_parsed_total" TotalLines in
  dlet _ := MustRegister "stdout2prom_bytes_read_total" BytesRead in
  dlet _ := MustRegister "stdout2prom_matched_lines_total" MatchedLines in
  ret (mkData (Basename cnf) (EatMatches cnf) (EatAll cnf) (Listen cnf)
         (Path cnf) ms).

(** ** [main]: the loop over the lines of standard input *)

(** What the loop body does once the pattern has matched, after it has
    counted the match. *)
Definition onMatch (metric : Metric) (result : list string) : M unit :=
  if Gauge_ metric then
    dlet r := elemAt result 1 in
    match ParseFloat r with
    | Some v => Gauge_Set (Collector_ metric) v
    | None => badFloats_Inc
    end
  else Counter_Inc (Collector_ metric).

(** The body of the loop over [cnf.Metrics] for one line; the result is
    the value of [matchFound] after it. *)
Definition processMetric (line : string) (matchFound : bool)
  (metric : Metric) : M bool :=
  match Compiled metric with
  | None => panic NilDereference
  | Some re =>
      let result := FindStringSubmatch re line in
      if decide (result ≠ []) then
        dlet _ := matchedLines_Inc in
        dlet _ := onMatch metric result in
        ret true
      else ret matchFound
  end.

Fixpoint processMetrics (line : string) (matchFound : bool)
  (metrics : list Metric) : M bool :=
  match metrics with
  | [] => ret matchFound
  | metric :: rest =>
      dlet mf := processMetric line matchFound metric in
      processMetrics line mf rest
  end.

(** The body of the scanner loop. *)
Definition processLine (cnf : Data) (line : string) : M unit :=
  dlet _ := totalLines_Inc in
  dlet _ := bytesRead_Add (String.length line) in
  dlet matchFound := processMetrics line false (Metrics cnf) in
  if forwarded (EatAll cnf) (EatMatches cnf) matchFound
  then fmt_Println line
  else ret tt.

Fixpoint scanLoop (cnf : Data) (lines : list string) : M unit :=
  match lines with
  | [] => ret tt
  | line :: rest => dlet _ := processLine cnf line in scanLoop cnf rest
  end.

Definition main (cnf : Data) (lines : list string) : M unit :=
  dlet cnf' := startup cnf in
  scanLoop cnf' lines.

End Engine.
Arguments Metric {E}.
Arguments Data {E}.
Arguments mkMetric {E}.
Arguments mkData {E}.
End GaugeFlag.

(** ** A small instance of the external collaborators

    Enough of a regular-expression engine and of a number parser to run
    the program on concrete lines: patterns without metacharacters
    (searched as substrings), the two-group pattern [twoFields] (two
    space-separated fields, named), and unsigned decimal integers. *)
Module Toy.

Inductive ToyRegexp : Type :=
| Literal (p : string)
| Fields (names : list string).

Definition twoFields : string :=
  "^(?P<returncode>[^ ]*) (?P<response>[^ ]*)$".

Definition plainChar (c : Ascii.ascii) : bool :=
  let n := Ascii.nat_of_ascii c in
  Nat.eqb n 32 || (Nat.leb 48 n && Nat.leb n 57)
  || (Nat.leb 65 n && Nat.leb n 90) || (Nat.leb 97 n && Nat.leb n 122).

Fixpoint plain (p : string) : bool :=
  match p with
  | EmptyString => true
  | String c rest => plainChar c && plain rest
  end.

Definition compile (p : string) : option ToyRegexp :=
  if decide (p = twoFields) then Some (Fields ["returncode"; "response"])
  else if plain p then Some (Literal p)
  else None.

Definition subexpNames (re : ToyRegexp) : list string :=
  match re with
  | Literal _ => [EmptyString]
  | Fields names => EmptyString :: names
  end.

Fixpoint fields (s : string) : list string :=
  match s with
  | EmptyString => [EmptyString]
  | String c rest =>
      if Ascii.eqb c " " then EmptyString :: fields rest
      else match fields rest with
           | w :: ws => String c w :: ws
           | [] => [String c EmptyString]
           end
  end.

Definition findStringSubmatch (re : ToyRegexp) (line : string) : list string :=
  match re with
  | Literal p =>
      match String.index 0 p line with
      | Some _ => [p]
      | None => []
      end
  | Fields names =>
      let fs := fields line in
      if decide (length fs = length names) then line :: fs else []
  end.

Fixpoint digits (acc : Z) (s : string) : option Z :=
  match s with
  | EmptyString => Some acc
  | String c rest =>
      let n := Ascii.nat_of_ascii c in
      if Nat.leb 48 n && Nat.leb n 57
      then digits (10 * acc + Z.of_nat (n - 48))%Z rest
      else None
  end.

Definition parseFloat (s : string) : option Z :=
  match s with
  | EmptyString => None
  | _ => digits 0%Z s
  end.

Definition externals : Externals :=
  {| Regexp := ToyRegexp;
     Compile := compile;
     SubexpNames := subexpNames;
     FindStringSubmatch := findStringSubmatch;
     float64 := Z;
     float64_zero := 0%Z;
     ParseFloat := parseFloat |}.

(** A metric as the configuration file gives it. *)
Definition configured (name regex val : string) (lbls : list string)
  : @Metric externals :=
  mkMetric name EmptyString regex val lbls None None [].

(** The configuration of the README, with [twoFields] as first pattern. *)
Definition readme : @Data externals :=
  mkData "myMetrics" false false ":9000" "/metrics"
    [ configured "post" twoFields "response" ["returncode"];
      configured "packetsOut" "output packet" EmptyString [] ].

(** Two counters whose patterns both match a line with [output packet]. *)
Definition twoCounters : @Data externals :=
  mkData "m" false false ":9000" "/metrics"
    [ configured "packetsOut" "output packet" EmptyString [];
      configured "packets" "packet" EmptyString [] ].

(** A value group name, [latency], that the pattern does not declare. *)
Definition missingValue : @Data externals :=
  mkData "m" false false ":9000" "/metrics"
    [ configured "post" twoFields "latency" [];
      configured "fields" twoFields EmptyString [] ].

(** A label name, [status], that the pattern does not declare. *)
Definition missingLabel : @Data externals :=
  mkData "m" false false ":9000" "/metrics"
    [ configured "post" twoFields EmptyString ["status"] ].

(** The configuration and the state after a start-up that succeeds. *)
Definition started (cnf : @Data externals) : @Data externals * @State externals :=
  match startup cnf initState with
  | (Ret cnf', s) => (cnf', s)
  | (Panic _, s) => (cnf, s)
  end.

(** The metrics of [readme] and of [twoCounters] as start-up leaves
    them. *)
Definition postStarted : @Metric externals :=
  mkMetric "post" EmptyString twoFields "response" ["returncode"]
    (Some 0) (Some (Fields ["returncode"; "response"] : @Regexp externals))
    [EmptyString; "returncode"; "response"].

Definition packetsOutStarted : @Metric externals :=
  mkMetric "packetsOut" EmptyString "output packet" EmptyString []
    (Some 0) (Some (Literal "output packet" : @Regexp externals))
    [EmptyString].

Definition packetsStarted : @Metric externals :=
  mkMetric "packets" EmptyString "packet" EmptyString []
    (Some 1) (Some (Literal "packet" : @Regexp externals)) [EmptyString].

(** A gauge without labels, before and after start-up. *)
Definition gaugeOnly : @Data externals :=
  mkData "m" false false ":9000" "/metrics"
    [ configured "resp" twoFields "response" [] ].

Definition respStarted : @Metric externals :=
  mkMetric "resp" EmptyString twoFields "response" []
    (Some 0) (Some (Fields ["returncode"; "response"] : @Regexp externals))
    [EmptyString; "returncode"; "response"].

(** The second metric of [readme] as start-up leaves it. *)
Definition packetsOutSecond : @Metric externals :=
  mkMetric "packetsOut" EmptyString "output packet" EmptyString []
    (Some 1) (Some (Literal "output packet" : @Regexp externals))
    [EmptyString].

(** A pattern that does not compile. *)
Definition badPattern : @Data externals :=
  mkData "m" false false ":9000" "/metrics"
    [ configured "packetsOut" "output packet" EmptyString [];
      configured "broken" "(" EmptyString [] ].

(** A configuration of the variant of [stdout2prom.go]: a gauge on the
    first field and a counter; and its metrics after start-up. *)
Definition flagConfigured (name regex : string) (gauge : bool)
  : @GaugeFlag.Metric externals :=
  GaugeFlag.mkMetric name EmptyString regex gauge None None.

Definition flagConfig : @GaugeFlag.Data externals :=
  GaugeFlag.mkData "m" false false ":9000" "/metrics"
    [ flagConfigured "code" twoFields true;
      flagConfigured "packets" "packet" false ].

Definition flagStarted (cnf : @GaugeFlag.Data externals)
  : @GaugeFlag.Data externals * @State externals :=
  match GaugeFlag.startup cnf initState with
  | (Ret cnf', s) => (cnf', s)
  | (Panic _, s) => (cnf, s)
  end.

Definition flagCodeStarted : @GaugeFlag.Metric externals :=
  GaugeFlag.mkMetric "code" EmptyString twoFields true (Some 0)
    (Some (Fields ["returncode"; "response"] : @Regexp externals)).

Definition flagPacketsStarted : @GaugeFlag.Metric externals :=
  GaugeFlag.mkMetric "packets" EmptyString "packet" false (Some 1)
    (Some (Literal "packet" : @Regexp externals)).

(** A gauge of that variant whose pattern has no group. *)
Definition flagNoGroup : @GaugeFlag.Metric externals :=
  GaugeFlag.mkMetric "packets" EmptyString "packet" true (Some 0)
    (Some (Literal "packet" : @Regexp externals)).

End Toy.

(** * Properties *)

Section Properties.
Context `{E : Externals}.

(** ** Vocabulary *)

(** Whether the metric's pattern matches the line: the test
    [len(result) != 0] of the loop body. *)
Definition matches (line : string) (metric : Metric) : bool :=
  match Compiled metric with
  | Some re => bool_decide (length (FindStringSubmatch re line) ≠ 0)
  | None => false
  end.

(** The collector kind the specification assigns to the two booleans
    "a value group is declared" and "the label set is non-empty". *)
Definition classify (hasValue hasLabels : bool) : Shape :=
  match hasValue, hasLabels with
  | true, true => IsGaugeVec
  | true, false => IsGauge
  | false, true => IsCounterVec
  | false, false => IsCounter
  end.

(** The line terminator the scanner strips. *)
Definition newline : string := String (Ascii.ascii_of_nat 10) EmptyString.

(** [keeps f]: the component [f] of the state is unchanged. *)
Definition keeps {X} (f : State → X) : relation State :=
  fun s s' => f s' = f s.

(** The registry does not acquire an entry for [badFloats]. *)
Definition noBadFloats : relation State :=
  fun s s' => BadFloats ∉ (registry s).*2 → BadFloats ∉ (registry s').*2.

(** The submatches of the line for the metric's pattern. *)
Definition submatches (line : string) (metric : Metric) : list string :=
  match Compiled metric with
  | Some re => FindStringSubmatch re line
  | None => []
  end.

(** The label mapping [getLabels] returns for these submatches ([getLabels]
    does not depend on the state). *)
Definition labelsOf (metric : Metric) (result : list string)
  : gmap string string :=
  match (getLabels (Labels metric) (GroupName metric) result initState).1 with
  | Ret (l, _) => l
  | Panic _ => ∅
  end.

(** What [update] does to the collector it finds, given the current
    [labels] and [value]. *)
Definition updateCell (metric : Metric) (l : gmap string string)
  (v : float64) (c : Collector) : Outcome Collector :=
  if decide (Value metric = EmptyString) then
    if decide (0 < length (Labels metric)) then
      match c with
      | CounterVec names series =>
          match labelValues names l with
          | Some k => Ret (CounterVec names
                             (<[k := default 0 (series !! k) + 1]> series))
          | None => Panic InconsistentCardinality
          end
      | _ => Panic TypeAssertion
      end
    else
      match c with
      | Counter n => Ret (Counter (n + 1))
      | _ => Panic TypeAssertion
      end
  else
    if decide (0 < length (Labels metric)) then
      match c with
      | GaugeVec names series =>
          match labelValues names l with
          | Some k => Ret (GaugeVec names (<[k := v]> series))
          | None => Panic InconsistentCardinality
          end
      | _ => Panic TypeAssertion
      end
    else
      match c with
      | Gauge _ => Ret (Gauge v)
      | _ => Panic TypeAssertion
      end.

(** One increment of a counter, or of the series [k] of a counter
    vector. *)
Definition incCell (k : list string) (c : Collector) : Collector :=
  match c with
  | Counter n => Counter (n + 1)
  | CounterVec names series =>
      CounterVec names (<[k := default 0 (series !! k) + 1]> series)
  | _ => c
  end.

(** The series of a counter vector that the label values extracted from
    the line select. *)
Definition selectedSeries (line : string) (metric : Metric) (c : Collector)
  : list string :=
  match c with
  | CounterVec names _ =>
      default [] (labelValues names (labelsOf metric (submatches line metric)))
  | _ => []
  end.

(** The extraction failures the metric counts on the line (0 or 1): what
    it adds to [badFloats] from the initial state. *)
Definition valueFails (line : string) (metric : Metric) : nat :=
  badFloats (processMetric line false metric initState).2.

(** The addresses of the collectors of a list of metrics. *)
Definition addresses (metrics : list Metric) : list (option nat) :=
  Collector_ <$> metrics.

(** The last step of the loop body on a state: the collector of the
    metric is looked up and replaced by its update. *)
Definition commit (metric : Metric) (l : gmap string string) (v : float64)
  (s : State) : Outcome bool * State :=
  match Collector_ metric with
  | None => (Panic TypeAssertion, s)
  | Some a =>
      match heap s !! a with
      | None => (Panic NilDereference, s)
      | Some c =>
          match updateCell metric l v c with
          | Ret c' => (Ret true, set_heap (<[a := c']> (heap s)) s)
          | Panic p => (Panic p, s)
          end
      end
  end.

(** [g] leaves the heap alone, counts one match and [d] extraction
    failures. *)
Definition touchesGlobals (d : nat) (g : State → State) : Prop :=
  ∀ s, heap (g s) = heap s
       ∧ matchedLines (g s) = matchedLines s + 1
       ∧ badFloats (g s) = badFloats s + d.

(** Whether a run ended without a panic. *)
Definition succeeds {A} (o : Outcome A) : bool :=
  match o with
  | Ret _ => true
  | Panic _ => false
  end.

(** What the metric adds to the matched-lines counter on the line. *)
Definition matchCount (line : string) (metric : Metric) : nat :=
  if matches line metric then 1 else 0.

(** What the loop over the metrics leaves alone: the registry, the kind
    of every collector, the two counters of the scanner loop and
    standard output. *)
Record lineFrame (s s' : State) : Prop := mkLineFrame {
  lf_registry : registry s' = registry s;
  lf_shape : shape <$> heap s' = shape <$> heap s;
  lf_totalLines : totalLines s' = totalLines s;
  lf_bytesRead : bytesRead s' = bytesRead s;
  lf_stdout : stdout s' = stdout s;
}.

(** What the scanner loop leaves alone. *)
Record runFrame (s s' : State) : Prop := mkRunFrame {
  rf_registry : registry s' = registry s;
  rf_shape : shape <$> heap s' = shape <$> heap s;
}.

(** The name a metric is registered under. *)
Definition metricName (basename : string) (metric : Metric) : string :=
  basename ++ "_" ++ Name metric.

(** The label names a vector collector was constructed with. *)
Definition labelNames (c : Collector) : list string :=
  match c with
  | CounterVec names _ | GaugeVec names _ => names
  | Counter _ | Gauge _ => []
  end.

(** The kind of a collector: its shape and its label names. *)
Definition kind (c : Collector) : Shape * list string :=
  (shape c, labelNames c).

(** A metric as start-up leaves it: compiled, with the group names of
    its pattern, and holding the address of a collector of the kind
    start-up creates for it. *)
Definition ready (metric : Metric) (s : State) : Prop :=
  ∃ re a c,
    Compiled metric = Some re
    ∧ GroupName metric = SubexpNames re
    ∧ Collector_ metric = Some a
    ∧ heap s !! a = Some c
    ∧ kind c = kind (newCollector metric).

(** A metric whose value name (if any) and label names are group names
    of its pattern, with no label name declared twice. *)
Definition consistent (metric : Metric) : Prop :=
  (Value metric = EmptyString ∨ Value metric ∈ GroupName metric)
  ∧ Forall (fun n => n ∈ GroupName metric) (Labels metric)
  ∧ NoDup (Labels metric).

(** What Go's [regexp] guarantees of [FindStringSubmatch]: nil, or one
    submatch per entry of [SubexpNames]. *)
Definition regular : Prop :=
  ∀ re line,
    FindStringSubmatch re line = []
    ∨ length (FindStringSubmatch re line) = length (SubexpNames re).

(** For the variant of [stdout2prom.go]: whether the metric's pattern
    matches the line (the test [result != nil]), a metric as its start-up
    leaves it, and a gauge whose pattern has a first group. *)
Definition flagMatches (line : string) (metric : GaugeFlag.Metric) : bool :=
  match GaugeFlag.Compiled metric with
  | Some re => bool_decide (FindStringSubmatch re line ≠ [])
  | None => false
  end.

Definition flagReady (metric : GaugeFlag.Metric) (s : State) : Prop :=
  ∃ re a c,
    GaugeFlag.Compiled metric = Some re
    ∧ GaugeFlag.Collector_ metric = Some a
    ∧ heap s !! a = Some c
    ∧ shape c = shape (GaugeFlag.newCollector metric).

Definition flagConsistent (metric : GaugeFlag.Metric) : Prop :=
  GaugeFlag.Gauge_ metric = true →
  ∀ re, GaugeFlag.Compiled metric = Some re →
        (2 ≤ length (SubexpNames re))%nat.

(** ** Reasoning about runs *)

(** [preserves R c]: whatever its outcome, [c] takes a state to an
    [R]-related one. *)
Definition preserves {A} (R : relation State) (c : M A) : Prop :=
  ∀ s, R s (c s).2.

Lemma preserves_ret {A} (R : relation State) `{!Reflexive R} (a : A) :
  preserves R (ret a).
Proof. intros s. simpl. reflexivity. Qed.

Lemma preserves_panic {A} (R : relation State) `{!Reflexive R} p :
  preserves R (panic (A:=A) p).
Proof. intros s. simpl. reflexivity. Qed.

Lemma preserves_get (R : relation State) `{!Reflexive R} :
  preserves R get.
Proof. intros s. simpl. reflexivity. Qed.

Lemma preserves_bind {A B} (R : relation State) `{!Transitive R}
  (c : M A) (k : A → M B) :
  preserves R c → (∀ a, preserves R (k a)) → preserves R (bind c k).
Proof.
  intros Hc Hk s. unfold bind. specialize (Hc s).
  destruct (c s) as [[a|p] s1]; simpl in *; [|done].
  etrans; [exact Hc|apply Hk].
Qed.

Lemma preserves_modify (R : relation State) (f : State → State) :
  (∀ s, R s (f s)) → preserves R (modify f).
Proof. intros Hf s. apply Hf. Qed.

#[local] Instance lineFrame_refl : Reflexive lineFrame.
Proof. by intros s; split. Qed.

#[local] Instance lineFrame_trans : Transitive lineFrame.
Proof. intros s1 s2 s3 [] []; split; congruence. Qed.

#[local] Instance runFrame_refl : Reflexive runFrame.
Proof. by intros s; split. Qed.

#[local] Instance runFrame_trans : Transitive runFrame.
Proof. intros s1 s2 s3 [] []; split; congruence. Qed.

Lemma lineFrame_runFrame s s' : lineFrame s s' → runFrame s s'.
Proof. intros []; by split. Qed.

(** Storing a collector of the kind already stored keeps all kinds. *)
Lemma shape_insert (h : list Collector) a c c' :
  h !! a = Some c → shape c' = shape c →
  shape <$> <[a := c']> h = shape <$> h.
Proof.
  intros Ha Hs. rewrite list_fmap_insert, Hs.
  apply list_insert_id. by rewrite list_lookup_fmap, Ha.
Qed.

Ltac frame_step :=
  lazymatch goal with
  | |- preserves _ (ret _) => apply preserves_ret; apply _
  | |- preserves _ (panic _) => apply preserves_panic; apply _
  | |- preserves _ get => apply preserves_get; apply _
  | |- preserves _ (bind _ _) => apply preserves_bind; [apply _| |intros ?]
  | |- preserves _ (modify _) =>
      apply preserves_modify; intros ?; split; simpl; done
  end.

Ltac frame := repeat (frame_step || case_decide || case_match).

Lemma collectorAt_spec c s :
  (∃ a col, c = Some a ∧ heap s !! a = Some col
            ∧ collectorAt c s = (Ret (a, col), s))
  ∨ (∃ p, collectorAt c s = (Panic p, s)).
Proof.
  unfold collectorAt. destruct c as [a|]; [|right; by eexists].
  unfold bind, get. destruct (heap s !! a) as [col|] eqn:Ha.
  - left. by exists a, col.
  - right. by eexists.
Qed.

Lemma Counter_Inc_frame c : preserves lineFrame (Counter_Inc c).
Proof.
  intros s. unfold Counter_Inc, bind.
  destruct (collectorAt_spec c s) as [(a & col & -> & Ha & ->)|[p ->]];
    [|done].
  destruct col; simpl; try done.
  split; simpl; try done. by eapply shape_insert.
Qed.

Lemma CounterVec_With_Inc_frame c l :
  preserves lineFrame (CounterVec_With_Inc c l).
Proof.
  intros s. unfold CounterVec_With_Inc, bind.
  destruct (collectorAt_spec c s) as [(a & col & -> & Ha & ->)|[p ->]];
    [|done].
  destruct col; simpl; try done.
  destruct (labelValues names l); simpl; [|done].
  split; simpl; try done. by eapply shape_insert.
Qed.

Lemma Gauge_Set_frame c v : preserves lineFrame (Gauge_Set c v).
Proof.
  intros s. unfold Gauge_Set, bind.
  destruct (collectorAt_spec c s) as [(a & col & -> & Ha & ->)|[p ->]];
    [|done].
  destruct col; simpl; try done.
  split; simpl; try done. by eapply shape_insert.
Qed.

Lemma GaugeVec_With_Set_frame c l v :
  preserves lineFrame (GaugeVec_With_Set c l v).
Proof.
  intros s. unfold GaugeVec_With_Set, bind.
  destruct (collectorAt_spec c s) as [(a & col & -> & Ha & ->)|[p ->]];
    [|done].
  destruct col; simpl; try done.
  destruct (labelValues names l); simpl; [|done].
  split; simpl; try done. by eapply shape_insert.
Qed.

(** [getValue] and [getLabels] neither read nor write the state. *)
Lemma elemAt_pure results idx : ∃ o, ∀ s, elemAt results idx s = (o, s).
Proof.
  unfold elemAt. destruct (idx <? 0)%Z; [by eexists|].
  destruct (results !! Z.to_nat idx); by eexists.
Qed.

Lemma getValue_pure vn gn res : ∃ o, ∀ s, getValue vn gn res s = (o, s).
Proof.
  unfold getValue, bind.
  destruct (elemAt_pure res (indexOf vn gn)) as [[r|p] Hr].
  - destruct (ParseFloat r) eqn:Hp; eexists; intros s; rewrite Hr, Hp; done.
  - eexists; intros s; by rewrite Hr.
Qed.

Lemma getLabels_loop_pure ln gn res val :
  ∃ o, ∀ s, getLabels_loop ln gn res val s = (o, s).
Proof.
  revert val. induction ln as [|n ln IH]; intros val; simpl.
  - by eexists.
  - case_decide; [by eexists|]. unfold bind.
    destruct (elemAt_pure res (indexOf n gn)) as [[r|p] Hr].
    + destruct (IH (<[n := r]> val)) as [o Ho].
      exists o. intros s. by rewrite Hr, Ho.
    + eexists; intros s; by rewrite Hr.
Qed.

Lemma getLabels_pure ln gn res : ∃ o, ∀ s, getLabels ln gn res s = (o, s).
Proof. apply getLabels_loop_pure. Qed.

Lemma pure_preserves {A} (R : relation State) `{!Reflexive R} (c : M A) :
  (∃ o, ∀ s, c s = (o, s)) → preserves R c.
Proof. intros [o Ho] s. by rewrite Ho. Qed.

Lemma update_frame metric : preserves lineFrame (update metric).
Proof.
  unfold update. apply preserves_bind; [apply _|apply preserves_get; apply _|].
  intros s0. repeat case_decide;
    auto using Counter_Inc_frame, CounterVec_With_Inc_frame,
      Gauge_Set_frame, GaugeVec_With_Set_frame.
Qed.

Lemma onMatch_frame metric result :
  preserves lineFrame (onMatch metric result).
Proof.
  unfold onMatch, extractValue, extractLabels, badFloats_Inc, log_Println.
  apply preserves_bind; [apply _| |intros proceed].
  - case_decide; [|frame].
    apply preserves_bind; [apply _| |intros ve].
    { apply pure_preserves; [apply _|apply getValue_pure]. }
    frame.
  - destruct proceed; [|frame].
    apply preserves_bind; [apply _| |intros _; apply update_frame].
    case_decide; [|frame].
    apply preserves_bind; [apply _| |intros le].
    { apply pure_preserves; [apply _|apply getLabels_pure]. }
    frame.
Qed.

Lemma processMetric_frame line mf metric :
  preserves lineFrame (processMetric line mf metric).
Proof.
  unfold processMetric, matchedLines_Inc.
  destruct (Compiled metric) as [re|]; [|frame].
  case_decide; [|frame].
  apply preserves_bind; [apply _|frame|intros _].
  apply preserves_bind; [apply _|apply onMatch_frame|intros ?; frame].
Qed.

Lemma processMetrics_frame line mf metrics :
  preserves lineFrame (processMetrics line mf metrics).
Proof.
  revert mf. induction metrics as [|m ms IH]; intros mf; simpl.
  - frame.
  - apply preserves_bind; [apply _|apply processMetric_frame|intros ?; apply IH].
Qed.


#[local] Instance keeps_refl {X} (f : State → X) : Reflexive (keeps f).
Proof. by intros s. Qed.

#[local] Instance keeps_trans {X} (f : State → X) : Transitive (keeps f).
Proof. intros s1 s2 s3 H1 H2. unfold keeps in *. congruence. Qed.

#[local] Instance noBadFloats_refl : Reflexive noBadFloats.
Proof. intros s H. exact H. Qed.

#[local] Instance noBadFloats_trans : Transitive noBadFloats.
Proof. intros s1 s2 s3 H1 H2. unfold noBadFloats in *. auto. Qed.

Lemma preserves_weaken {A} (R R' : relation State) (c : M A) :
  (∀ s s', R s s' → R' s s') → preserves R c → preserves R' c.
Proof. intros HR Hc s. apply HR, Hc. Qed.

Lemma preserves_run {A} (R : relation State) (c : M A) s o s' :
  preserves R c → c s = (o, s') → R s s'.
Proof. intros Hc Hs. specialize (Hc s). by rewrite Hs in Hc. Qed.

Lemma bind_Ret_inv {A B} (c : M A) (k : A → M B) s b s' :
  bind c k s = (Ret b, s') →
  ∃ a s1, c s = (Ret a, s1) ∧ k a s1 = (Ret b, s').
Proof.
  unfold bind. destruct (c s) as [[a|p] s1]; [|done]. intros H. eauto.
Qed.

Lemma processLine_frame cnf line : preserves runFrame (processLine cnf line).
Proof.
  unfold processLine, totalLines_Inc, bytesRead_Add, fmt_Println.
  apply preserves_bind; [apply _|frame|intros _].
  apply preserves_bind; [apply _|frame|intros _].
  apply preserves_bind; [apply _| |intros ?; frame].
  eapply preserves_weaken; [apply lineFrame_runFrame|].
  apply processMetrics_frame.
Qed.

Lemma scanLoop_frame cnf lines : preserves runFrame (scanLoop cnf lines).
Proof.
  induction lines as [|line lines IH]; simpl; [frame|].
  apply preserves_bind; [apply _|apply processLine_frame|intros _; apply IH].
Qed.

(** ** The two counters of the scanner loop (C10) *)

(** C10: processing a line, whether or not it matches a specification
    and whatever the outcome, adds exactly 1 to the total-lines counter
    and exactly the byte length of the line, terminator excluded, to the
    bytes-read counter: one less than the bytes of the line with its
    newline. *)
Theorem processLine_counts_line_and_bytes (cnf : Data) (line : string)
  (s : State) :
  let s' := (processLine cnf line s).2 in
  totalLines s' = totalLines s + 1
  ∧ bytesRead s' = bytesRead s + String.length line
  ∧ bytesRead s' + 1 = bytesRead s + String.length (line ++ newline).
Proof.
  assert (Hlen : String.length (line ++ newline) = String.length line + 1).
  { induction line as [|c line IH]; simpl; [done|]. by rewrite IH. }
  rewrite Hlen. cut (let s' := (processLine cnf line s).2 in
    totalLines s' = totalLines s + 1
    ∧ bytesRead s' = bytesRead s + String.length line).
  { simpl. lia. }
  unfold processLine, bind, totalLines_Inc, bytesRead_Add, modify. simpl.
  match goal with |- context [processMetrics line false ?ms ?s0] =>
    pose proof (processMetrics_frame line false ms s0) as [_ _ Ht Hb _];
    destruct (processMetrics line false ms s0) as [[b|p] s1]
  end; simpl in *; [|by rewrite Ht, Hb].
  destruct (forwarded _ _ b); simpl; by rewrite Ht, Hb.
Qed.

(** ** The pass-through decision (C5) *)

Lemma processMetric_matchFound line mf metric s b s' :
  processMetric line mf metric s = (Ret b, s') →
  b = mf || matches line metric.
Proof.
  unfold processMetric, matches. destruct (Compiled metric) as [re|].
  - destruct (decide (length (FindStringSubmatch re line) ≠ 0)) as [Hm|Hm].
    + rewrite bool_decide_eq_true_2 by exact Hm.
      intros (? & ? & _ & (? & ? & _ & [= <- _])%bind_Ret_inv)%bind_Ret_inv.
      by rewrite orb_true_r.
    + rewrite bool_decide_eq_false_2 by exact Hm.
      intros [= <- _]. by rewrite orb_false_r.
  - intros [=].
Qed.

Lemma processMetrics_matchFound line mf metrics s b s' :
  processMetrics line mf metrics s = (Ret b, s') →
  b = mf || existsb (matches line) metrics.
Proof.
  revert mf s. induction metrics as [|m ms IH]; intros mf s; simpl.
  - intros [= <- _]. by rewrite orb_false_r.
  - intros (b1 & s1 & H1 & H2)%bind_Ret_inv.
    apply processMetric_matchFound in H1 as ->.
    apply IH in H2 as ->. by rewrite orb_assoc.
Qed.

(** C5: whether a line is forwarded is the function [forwarded] of
    [eatAll], [eatMatches] and whether some specification matched this
    line: never when [eatAll]; not when [eatMatches] and matched; in every
    other case the line is printed as it was read, once.  Nothing is
    printed when the processing of the line panics. *)
Theorem passthrough_is_function_of_three_flags (cnf : Data) (line : string)
  (s : State) :
  (∀ eatMatches matched, forwarded true eatMatches matched = false)
  ∧ forwarded false true true = false
  ∧ (∀ eatMatches matched, matched && eatMatches = false →
       forwarded false eatMatches matched = true)
  ∧ stdout (processLine cnf line s).2 =
      (stdout s ++
        match (processLine cnf line s).1 with
        | Ret _ =>
            if forwarded (EatAll cnf) (EatMatches cnf)
                 (existsb (matches line) (Metrics cnf))
            then [line] else []
        | Panic _ => []
        end)%list.
Proof.
  split_and!; [done|done|by intros ?? H; unfold forwarded; rewrite H|].
  unfold processLine, bind, totalLines_Inc, bytesRead_Add, modify. simpl.
  match goal with |- context [processMetrics line false ?ms ?s0] =>
    pose proof (processMetrics_frame line false ms s0) as [_ _ _ _ Ho];
    pose proof (processMetrics_matchFound line false ms s0) as Hb;
    destruct (processMetrics line false ms s0) as [[b|p] s1]
  end; simpl in *.
  - rewrite (Hb b s1 eq_refl). simpl.
    destruct (forwarded _ _ _); simpl; rewrite Ho; [done|].
    by rewrite app_nil_r.
  - by rewrite Ho, app_nil_r.
Qed.

(** ** Start-up: collectors and registry (C6, C7) *)

Lemma MustRegister_keeps_heap name r : preserves (keeps heap) (MustRegister name r).
Proof. unfold MustRegister. frame. Qed.

Lemma MustRegister_noBadFloats name r :
  r ≠ BadFloats → preserves noBadFloats (MustRegister name r).
Proof.
  intros Hr s. unfold MustRegister, bind, get.
  case_decide; simpl; [by intros ?|].
  unfold noBadFloats. simpl.
  intros Hs. rewrite fmap_app, elem_of_app. simpl.
  rewrite list_elem_of_singleton. intros [Hin|Heq]; [by apply Hs|by apply Hr].
Qed.

Lemma alloc_spec c s :
  alloc c s = (Ret (length (heap s)), set_heap (heap s ++ [c]) s).
Proof. done. Qed.

Lemma startMetric_spec basename metric s m' s' :
  startMetric basename metric s = (Ret m', s') →
  heap s' = (heap s ++ [newCollector metric])%list
  ∧ Collector_ m' = Some (length (heap s))
  ∧ Value m' = Value metric ∧ Labels m' = Labels metric.
Proof.
  unfold startMetric. destruct (Compile (Regex metric)) as [re|]; [|done].
  intros (a & s1 & Ha & (u & s2 & Hr & [= <- <-])%bind_Ret_inv)%bind_Ret_inv.
  rewrite alloc_spec in Ha. injection Ha as <- <-.
  apply (preserves_run _ _ _ _ _ (MustRegister_keeps_heap _ _)) in Hr.
  unfold keeps in Hr. simpl in *. by rewrite Hr.
Qed.

Lemma startMetrics_spec basename metrics s ms' s' :
  startMetrics basename metrics s = (Ret ms', s') →
  heap s' = (heap s ++ (newCollector <$> metrics))%list
  ∧ Collector_ <$> ms' = Some <$> seq (length (heap s)) (length metrics)
  ∧ Value <$> ms' = Value <$> metrics
  ∧ Labels <$> ms' = Labels <$> metrics.
Proof.
  revert s ms' s'. induction metrics as [|m ms IH]; intros s ms' s'; simpl.
  - intros [= <- <-]. by rewrite app_nil_r.
  - intros (m1 & s1 & H1 & (ms1 & s2 & H2 & [= <- <-])%bind_Ret_inv)%bind_Ret_inv.
    apply startMetric_spec in H1 as (Hh1 & Hc1 & Hv1 & Hl1).
    apply IH in H2 as (Hh2 & Hc2 & Hv2 & Hl2).
    split_and!; rewrite ?fmap_cons.
    + by rewrite Hh2, Hh1, <- app_assoc.
    + rewrite Hc1, Hc2, Hh1, length_app. simpl. by rewrite Nat.add_1_r.
    + by rewrite Hv1, Hv2.
    + by rewrite Hl1, Hl2.
Qed.

Lemma newCollector_shape metric :
  shape (newCollector metric) =
  classify (bool_decide (Value metric ≠ EmptyString))
           (bool_decide (0 < length (Labels metric))).
Proof.
  unfold newCollector.
  repeat case_bool_decide; repeat case_decide; done.
Qed.

(** C6: start-up gives every specification one collector of its own,
    in declaration order, whose kind is the one the two booleans "value
    group declared" and "label set non-empty" select (GaugeVec, Gauge,
    CounterVec, Counter); processing lines afterwards never changes the
    kind of any collector. *)
Theorem collector_shape_chosen_once (cnf cnf' : Data) (s s' : State)
  (Hstart : startup cnf s = (Ret cnf', s')) :
  heap s' = (heap s ++ (newCollector <$> Metrics cnf))%list
  ∧ Collector_ <$> Metrics cnf'
    = Some <$> seq (length (heap s)) (length (Metrics cnf))
  ∧ (∀ metric : Metric,
       shape (newCollector metric) =
       classify (bool_decide (Value metric ≠ EmptyString))
                (bool_decide (0 < length (Labels metric)))
       ∧ (Value metric ≠ EmptyString → 0 < length (Labels metric) →
          newCollector metric = GaugeVec (Labels metric) ∅)
       ∧ (Value metric ≠ EmptyString → ¬ 0 < length (Labels metric) →
          newCollector metric = Gauge float64_zero)
       ∧ (Value metric = EmptyString → 0 < length (Labels metric) →
          newCollector metric = CounterVec (Labels metric) ∅)
       ∧ (Value metric = EmptyString → ¬ 0 < length (Labels metric) →
          newCollector metric = Counter 0))
  ∧ (∀ lines : list string,
       shape <$> heap (scanLoop cnf' lines s').2 = shape <$> heap s').
Proof.
  unfold startup in Hstart.
  apply bind_Ret_inv in Hstart as (ms & s1 & Hms & Hrest).
  apply bind_Ret_inv in Hrest as (? & s2 & H2 & Hrest).
  apply bind_Ret_inv in Hrest as (? & s3 & H3 & Hrest).
  apply bind_Ret_inv in Hrest as (? & s4 & H4 & [= <- <-]).
  apply startMetrics_spec in Hms as (Hh & Hc & _ & _).
  apply (preserves_run _ _ _ _ _ (MustRegister_keeps_heap _ _)) in H2, H3, H4.
  unfold keeps in *. simpl in *.
  split_and!.
  - congruence.
  - done.
  - intros metric. split; [apply newCollector_shape|].
    unfold newCollector. split_and!; intros ??; by repeat case_decide.
  - intros lines. apply scanLoop_frame.
Qed.

Lemma startMetric_noBadFloats basename metric :
  preserves noBadFloats (startMetric basename metric).
Proof.
  unfold startMetric. destruct (Compile (Regex metric)); [|frame].
  apply preserves_bind; [apply _| |intros a].
  { intros s. rewrite alloc_spec. by intros ?. }
  apply preserves_bind; [apply _| |intros ?; frame].
  by apply MustRegister_noBadFloats.
Qed.

Lemma startMetrics_noBadFloats basename metrics :
  preserves noBadFloats (startMetrics basename metrics).
Proof.
  induction metrics as [|m ms IH]; simpl; [frame|].
  apply preserves_bind; [apply _|apply startMetric_noBadFloats|intros ?].
  apply preserves_bind; [apply _|apply IH|intros ?; frame].
Qed.

Lemma startup_noBadFloats cnf : preserves noBadFloats (startup cnf).
Proof.
  unfold startup.
  apply preserves_bind; [apply _|apply startMetrics_noBadFloats|intros ?].
  repeat (apply preserves_bind;
          [apply _|by apply MustRegister_noBadFloats|intros ?]).
  frame.
Qed.

Lemma runFrame_noBadFloats s s' : runFrame s s' → noBadFloats s s'.
Proof. intros [Hr _] H. by rewrite Hr. Qed.

Lemma main_noBadFloats cnf lines : preserves noBadFloats (main cnf lines).
Proof.
  unfold main.
  apply preserves_bind; [apply _|apply startup_noBadFloats|intros cnf'].
  eapply preserves_weaken; [apply runFrame_noBadFloats|apply scanLoop_frame].
Qed.

(** C7 (what the code does): whatever the configuration and the input,
    the registry never holds the value-extraction-failure counter
    [badFloats]; [main] registers the other three counters only. *)
Theorem badFloats_never_registered (cnf : Data) (lines : list string) :
  BadFloats ∉ (registry (main cnf lines initState).2).*2.
Proof. apply main_noBadFloats. simpl. apply not_elem_of_nil. Qed.

(** ** Extraction failures (C2, C3, C4) *)

Lemma indexOf_from_range k word data :
  indexOf_from k word data = (-1)%Z
  ∨ (k ≤ indexOf_from k word data < k + Z.of_nat (length data))%Z.
Proof.
  revert k. induction data as [|v data IH]; intros k; simpl; [by left|].
  case_decide; [right; lia|]. destruct (IH (k + 1)%Z); [by left|right; lia].
Qed.

(** A value group name the pattern does not declare makes [getValue]
    index the submatches at -1. *)
Lemma getValue_missing_group valueName groupNames results s :
  indexOf valueName groupNames = (-1)%Z →
  getValue valueName groupNames results s
  = (Panic (IndexOutOfRange (-1) (length results)), s).
Proof. unfold getValue, bind, elemAt. by intros ->. Qed.

(** C4: when the pattern matches and the value submatch does not parse
    as a number, the loop body counts the match and one extraction
    failure, leaves every collector as it was, and the loop goes on with
    the next specification with the matched flag set. *)
Theorem parse_failure_skips_update (line : string) (mf : bool)
  (metric : Metric) (rest : list Metric) (s : State) (re : Regexp)
  (k : nat) (r : string)
  (Hre : Compiled metric = Some re)
  (Hmatch : length (FindStringSubmatch re line) ≠ 0)
  (Hval : Value metric ≠ EmptyString)
  (Hidx : indexOf (Value metric) (GroupName metric) = Z.of_nat k)
  (Hsub : FindStringSubmatch re line !! k = Some r)
  (Hparse : ParseFloat r = None) :
  ∃ s1, processMetric line mf metric s = (Ret true, s1)
    ∧ badFloats s1 = badFloats s + 1
    ∧ matchedLines s1 = matchedLines s + 1
    ∧ heap s1 = heap s
    ∧ processMetrics line mf (metric :: rest) s
      = processMetrics line true rest s1.
Proof.
  assert (Hv : ∀ s0, getValue (Value metric) (GroupName metric)
                       (FindStringSubmatch re line) s0
                     = (Ret (float64_zero, Some ErrParseFloat), s0)).
  { intros s0. unfold getValue, bind, elemAt. rewrite Hidx.
    destruct (Z.ltb_spec (Z.of_nat k) 0); [lia|].
    rewrite Nat2Z.id, Hsub. simpl. by rewrite Hparse. }
  assert (Hm : ∃ s1, processMetric line mf metric s = (Ret true, s1)
    ∧ badFloats s1 = badFloats s + 1
    ∧ matchedLines s1 = matchedLines s + 1
    ∧ heap s1 = heap s).
  { unfold processMetric. rewrite Hre. simpl.
    destruct (decide (length (FindStringSubmatch re line) ≠ 0)); [|done].
    unfold onMatch, extractValue.
    destruct (decide (Value metric ≠ EmptyString)); [|done].
    unfold bind, matchedLines_Inc, badFloats_Inc, modify. rewrite Hv. simpl.
    eexists. split; [reflexivity|]. by simpl. }
  destruct Hm as (s1 & Hs1 & Hb & Hml & Hh). exists s1.
  split_and!; try done.
  cbn [processMetrics]. unfold bind. by rewrite Hs1.
Qed.

(** ** One specification on one line *)

Lemma pure_run {A} (c : M A) :
  (∃ o, ∀ s, c s = (o, s)) → ∀ s, c s = ((c initState).1, s).
Proof. intros [o Ho] s. by rewrite !Ho. Qed.

Lemma extractValue_cases metric result :
  (∃ p, ∀ s, extractValue metric result s = (Panic p, s))
  ∨ (∃ v, Value metric ≠ EmptyString ∧ ∀ s,
       extractValue metric result s
       = (Ret false, set_badFloats (badFloats s + 1) (set_value v s)))
  ∨ (∃ v, Value metric ≠ EmptyString ∧ ∀ s,
       extractValue metric result s = (Ret true, set_value v s))
  ∨ (Value metric = EmptyString ∧ ∀ s,
       extractValue metric result s = (Ret true, s)).
Proof.
  unfold extractValue.
  destruct (decide (Value metric ≠ EmptyString)) as [Hv|Hv].
  - destruct (getValue_pure (Value metric) (GroupName metric) result)
      as [[[v [e|]]|p] Ho].
    + right; left. exists v. split; [done|]. intros s.
      unfold bind. by rewrite Ho.
    + right; right; left. exists v. split; [done|]. intros s.
      unfold bind. by rewrite Ho.
    + left. exists p. intros s. unfold bind. by rewrite Ho.
  - right; right; right. split; [|done].
    by destruct (decide (Value metric = EmptyString)).
Qed.

Lemma extractLabels_cases metric result :
  (0 < length (Labels metric) ∧
     ((∃ p, ∀ s, extractLabels metric result s = (Panic p, s))
      ∨ (∀ s, extractLabels metric result s
              = (Ret tt, set_logged (logged s ++ ["problems finding labels"])
                           (set_labels (labelsOf metric result) s)))
      ∨ (∀ s, extractLabels metric result s
              = (Ret tt, set_labels (labelsOf metric result) s))))
  ∨ (¬ 0 < length (Labels metric) ∧ ∀ s,
       extractLabels metric result s = (Ret tt, s)).
Proof.
  unfold extractLabels, labelsOf.
  destruct (decide (0 < length (Labels metric))) as [Hl|Hl]; [left|by right].
  split; [done|].
  pose proof (pure_run _ (getLabels_pure (Labels metric) (GroupName metric)
                            result)) as Ho.
  destruct ((getLabels (Labels metric) (GroupName metric) result initState).1)
    as [[l [e|]]|p].
  - right; left. intros s. unfold bind. by rewrite Ho.
  - right; right. intros s. unfold bind. by rewrite Ho.
  - left. exists p. intros s. unfold bind. by rewrite Ho.
Qed.

Lemma update_spec metric s :
  update metric s =
  match Collector_ metric with
  | None => (Panic TypeAssertion, s)
  | Some a =>
      match heap s !! a with
      | None => (Panic NilDereference, s)
      | Some c =>
          match updateCell metric (labels s) (value s) c with
          | Ret c' => (Ret tt, set_heap (<[a := c']> (heap s)) s)
          | Panic p => (Panic p, s)
          end
      end
  end.
Proof.
  unfold update, updateCell, bind at 1, get. simpl.
  repeat case_decide;
    unfold Counter_Inc, CounterVec_With_Inc, Gauge_Set, GaugeVec_With_Set,
      bind;
    (destruct (collectorAt_spec (Collector_ metric) s)
       as [(a & col & Hc & Ha & Hs)|[p Hs]];
     [ rewrite Hs, Hc, Ha; destruct col; simpl; try done;
       by destruct (labelValues _ _)
     | rewrite Hs; unfold collectorAt, bind, get in Hs;
       destruct (Collector_ metric) as [a|]; simpl in *;
       [ destruct (heap s !! a); [done|]; by injection Hs as <-
       | by injection Hs as <- ] ]).
Qed.

Lemma updateCell_labels_irrelevant metric l l' v c :
  ¬ 0 < length (Labels metric) →
  updateCell metric l v c = updateCell metric l' v c.
Proof. intros H. unfold updateCell. by repeat case_decide. Qed.

Lemma updateCell_value_irrelevant metric l v v' c :
  Value metric = EmptyString →
  updateCell metric l v c = updateCell metric l v' c.
Proof. intros H. unfold updateCell. by repeat case_decide. Qed.

(** The loop body in normal form: either the pattern does not match and
    nothing happens, or the match is counted and then the body panics
    during extraction, or skips the update after a parse failure, or
    commits the update. *)
Lemma processMetric_cases line metric :
  (matches line metric = false
   ∧ ((∀ mf s, processMetric line mf metric s = (Ret mf, s))
      ∨ (∃ p, ∀ mf s, processMetric line mf metric s = (Panic p, s))))
  ∨ (matches line metric = true ∧ ∃ d g, touchesGlobals d g ∧
     ((∃ p, ∀ mf s, processMetric line mf metric s = (Panic p, g s))
      ∨ (Value metric ≠ EmptyString ∧ d = 1
         ∧ ∀ mf s, processMetric line mf metric s = (Ret true, g s))
      ∨ (d = 0 ∧ ∃ l v,
           (0 < length (Labels metric) →
            l = labelsOf metric (submatches line metric))
           ∧ ∀ mf s, processMetric line mf metric s
                     = commit metric l v (g s)))).
Proof.
  unfold processMetric, matches, submatches.
  destruct (Compiled metric) as [re|]; [|left; split; [done|right; by eexists]].
  destruct (decide (length (FindStringSubmatch re line) ≠ 0)) as [Hm|Hm].
  2:{ left. rewrite bool_decide_eq_false_2 by exact Hm. split; [done|by left]. }
  right. rewrite bool_decide_eq_true_2 by exact Hm. split; [done|].
  set (res := FindStringSubmatch re line).
  set (g0 := fun s => set_matchedLines (matchedLines s + 1) s).
  assert (Hcommit : ∀ l v (g : State → State),
    (∀ s, labels (g s) = l ∨ ¬ 0 < length (Labels metric)) →
    (∀ s, value (g s) = v ∨ Value metric = EmptyString) →
    ∀ s, match update metric (g s) with
         | (Ret _, s') => (Ret true, s')
         | (Panic p, s') => (Panic p, s')
         end = commit metric l v (g s)).
  { intros l v g Hl Hv s. rewrite update_spec. unfold commit.
    destruct (Collector_ metric) as [a|]; [|done].
    destruct (heap (g s) !! a) as [c|]; [|done].
    replace (updateCell metric (labels (g s)) (value (g s)) c)
      with (updateCell metric l v c); [by destruct (updateCell _ _ _ _)|].
    destruct (Hl s) as [->|Hl']; destruct (Hv s) as [->|Hv']; [done|..].
    - by apply updateCell_value_irrelevant.
    - by apply updateCell_labels_irrelevant.
    - rewrite (updateCell_labels_irrelevant _ l (labels (g s))) by done.
      by apply updateCell_value_irrelevant. }
  unfold onMatch, matchedLines_Inc.
  pose (msg := "problems finding labels").
  destruct (extractValue_cases metric res)
    as [[p HV]|[(v & Hv & HV)|[(v & Hv & HV)|(Hv & HV)]]].
  - exists 0, g0. split; [intros s; simpl; split_and!; [done|done|lia]|].
    left. exists p. intros mf s. unfold bind, modify. by rewrite HV.
  - exists 1, (fun s => set_badFloats (badFloats (g0 s) + 1) (set_value v (g0 s))).
    split; [done|]. right; left. split_and!; [done|done|].
    intros mf s. unfold bind, modify. by rewrite HV.
  - destruct (extractLabels_cases metric res)
      as [[Hl [[p HL]|[HL|HL]]]|[Hl HL]].
    + exists 0, (fun s => set_value v (g0 s)).
      split; [intros s; simpl; split_and!; [done|done|lia]|].
      left. exists p. intros mf s. unfold bind, modify. by rewrite HV, HL.
    + set (g := fun s => set_logged (logged s ++ [msg])
                     (set_labels (labelsOf metric res) (set_value v (g0 s)))).
      exists 0, g.
      split; [intros s; simpl; split_and!; [done|done|lia]|].
      right; right. split; [done|]. exists (labelsOf metric res), v.
      split; [done|]. intros mf s. unfold bind, modify. rewrite HV, HL.
      refine (Hcommit ((labelsOf metric res)) v g _ _ s); intros ?; first [by left|by right].
    + set (g := fun s => set_labels (labelsOf metric res) (set_value v (g0 s))).
      exists 0, g.
      split; [intros s; simpl; split_and!; [done|done|lia]|].
      right; right. split; [done|]. exists (labelsOf metric res), v.
      split; [done|]. intros mf s. unfold bind, modify. rewrite HV, HL.
      refine (Hcommit ((labelsOf metric res)) v g _ _ s); intros ?; first [by left|by right].
    + set (g := fun s => set_value v (g0 s)).
      exists 0, g.
      split; [intros s; simpl; split_and!; [done|done|lia]|].
      right; right. split; [done|]. exists ∅, v.
      split; [done|]. intros mf s. unfold bind, modify. rewrite HV, HL.
      refine (Hcommit (∅) v g _ _ s); intros ?; first [by left|by right].
  - destruct (extractLabels_cases metric res)
      as [[Hl [[p HL]|[HL|HL]]]|[Hl HL]].
    + exists 0, g0.
      split; [intros s; simpl; split_and!; [done|done|lia]|].
      left. exists p. intros mf s. unfold bind, modify. by rewrite HV, HL.
    + set (g := fun s => set_logged (logged s ++ [msg])
                     (set_labels (labelsOf metric res) (g0 s))).
      exists 0, g.
      split; [intros s; simpl; split_and!; [done|done|lia]|].
      right; right. split; [done|]. exists (labelsOf metric res), float64_zero.
      split; [done|]. intros mf s. unfold bind, modify. rewrite HV, HL.
      refine (Hcommit ((labelsOf metric res)) float64_zero g _ _ s); intros ?; first [by left|by right].
    + set (g := fun s => set_labels (labelsOf metric res) (g0 s)).
      exists 0, g.
      split; [intros s; simpl; split_and!; [done|done|lia]|].
      right; right. split; [done|]. exists (labelsOf metric res), float64_zero.
      split; [done|]. intros mf s. unfold bind, modify. rewrite HV, HL.
      refine (Hcommit ((labelsOf metric res)) float64_zero g _ _ s); intros ?; first [by left|by right].
    + exists 0, g0.
      split; [intros s; simpl; split_and!; [done|done|lia]|].
      right; right. split; [done|]. exists ∅, float64_zero.
      split; [done|]. intros mf s. unfold bind, modify. rewrite HV, HL.
      refine (Hcommit (∅) float64_zero g0 _ _ s); intros ?; first [by left|by right].
Qed.

Lemma commit_heap metric l v s :
  ∃ h, (commit metric l v s).2 = set_heap h s
       ∧ length h = length (heap s)
       ∧ ∀ b, Collector_ metric ≠ Some b → h !! b = heap s !! b.
Proof.
  assert (Hid : s = set_heap (heap s) s) by by destruct s.
  unfold commit. destruct (Collector_ metric) as [a|]; [|by exists (heap s)].
  destruct (heap s !! a) as [c|]; [|by exists (heap s)].
  destruct (updateCell metric l v c) as [c'|p]; [|by exists (heap s)].
  exists (<[a := c']> (heap s)). split_and!; [done|by rewrite length_insert|].
  intros b Hb. apply list_lookup_insert_ne. congruence.
Qed.

Lemma commit_local metric l v s1 s2 :
  (∀ a, Collector_ metric = Some a → heap s1 !! a = heap s2 !! a) →
  succeeds (commit metric l v s1).1 = succeeds (commit metric l v s2).1
  ∧ ∀ a, Collector_ metric = Some a →
         heap (commit metric l v s1).2 !! a = heap (commit metric l v s2).2 !! a.
Proof.
  intros Hag. unfold commit. destruct (Collector_ metric) as [a|]; [|done].
  specialize (Hag a eq_refl). rewrite Hag.
  destruct (heap s2 !! a) as [c|] eqn:Hc;
    [|split; [done|intros ? [= <-]; simpl; congruence]].
  destruct (updateCell metric l v c) as [c'|p];
    [|split; [done|intros ? [= <-]; simpl; congruence]].
  split; [done|]. intros ? [= <-]. simpl.
  rewrite !list_lookup_insert_eq; [done|by eapply lookup_lt_Some..].
Qed.

(** What one pass of the loop body does to the heap and to the two
    counters it touches, whatever its outcome. *)
Lemma processMetric_summary line mf metric s :
  let r := processMetric line mf metric s in
  length (heap r.2) = length (heap s)
  ∧ (∀ b, Collector_ metric ≠ Some b → heap r.2 !! b = heap s !! b)
  ∧ matchedLines r.2 = matchedLines s + matchCount line metric
  ∧ badFloats r.2 = badFloats s + valueFails line metric.
Proof.
  unfold valueFails, matchCount.
  destruct (processMetric_cases line metric)
    as [[-> [H|[p H]]]|[-> (d & g & Hg & [[p H]|[(_ & _ & H)|(_ & l & v & _ & H)]])]];
    rewrite !H; simpl; try (split_and!; [done|done|lia|lia]).
  - destruct (Hg s) as (Hh & Hm & Hb), (Hg initState) as (_ & _ & Hb0).
    rewrite Hh, Hm, Hb, Hb0. simpl. split_and!; [done|done|lia|lia].
  - destruct (Hg s) as (Hh & Hm & Hb), (Hg initState) as (_ & _ & Hb0).
    rewrite Hh, Hm, Hb, Hb0. simpl. split_and!; [done|done|lia|lia].
  - destruct (Hg s) as (Hh & Hm & Hb), (Hg initState) as (_ & _ & Hb0).
    destruct (commit_heap metric l v (g s)) as (h & -> & Hlen & Hoth).
    destruct (commit_heap metric l v (g initState)) as (h0 & -> & _ & _).
    simpl. rewrite Hlen, Hh, Hm, Hb, Hb0. simpl.
    split_and!; [done| |lia|lia].
    intros b Hne. by rewrite Hoth, Hh.
Qed.

(** Whether the loop body panics, and what it leaves in the metric's own
    collector, depend on the state only through that collector. *)
Lemma processMetric_local line mf1 mf2 metric s1 s2 :
  (∀ a, Collector_ metric = Some a → heap s1 !! a = heap s2 !! a) →
  let r1 := processMetric line mf1 metric s1 in
  let r2 := processMetric line mf2 metric s2 in
  succeeds r1.1 = succeeds r2.1
  ∧ ∀ a, Collector_ metric = Some a → heap r1.2 !! a = heap r2.2 !! a.
Proof.
  intros Hag.
  destruct (processMetric_cases line metric)
    as [[_ [H|[p H]]]|[_ (d & g & Hg & [[p H]|[(_ & _ & H)|(_ & l & v & _ & H)]])]];
    rewrite !H; simpl; try done.
  - destruct (Hg s1) as (Hh1 & _), (Hg s2) as (Hh2 & _).
    rewrite Hh1, Hh2. done.
  - destruct (Hg s1) as (Hh1 & _), (Hg s2) as (Hh2 & _).
    rewrite Hh1, Hh2. done.
  - apply commit_local. intros a Ha.
    destruct (Hg s1) as (Hh1 & _), (Hg s2) as (Hh2 & _).
    rewrite Hh1, Hh2. by apply Hag.
Qed.

(** ** All specifications on one line (C8) *)

Lemma processMetrics_cons line mf metric rest s :
  processMetrics line mf (metric :: rest) s =
  match processMetric line mf metric s with
  | (Ret mf', s1) => processMetrics line mf' rest s1
  | (Panic p, s1) => (Panic p, s1)
  end.
Proof. done. Qed.


Lemma not_elem_of_addresses_cons b metric metrics :
  Some b ∉ addresses (metric :: metrics) ↔
  Collector_ metric ≠ Some b ∧ Some b ∉ addresses metrics.
Proof.
  unfold addresses. rewrite fmap_cons, not_elem_of_cons.
  split; intros [H1 H2]; split; congruence.
Qed.

Lemma NoDup_addresses_cons metric metrics :
  NoDup (addresses (metric :: metrics)) ↔
  (Collector_ metric ∉ addresses metrics) ∧ NoDup (addresses metrics).
Proof. unfold addresses. rewrite fmap_cons, NoDup_cons. done. Qed.

Lemma processMetrics_others line mf metrics s :
  let r := processMetrics line mf metrics s in
  length (heap r.2) = length (heap s)
  ∧ ∀ b, Some b ∉ addresses metrics → heap r.2 !! b = heap s !! b.
Proof.
  revert mf s. induction metrics as [|m ms IH]; intros mf s; [done|].
  rewrite processMetrics_cons.
  pose proof (processMetric_summary line mf m s) as (Hlen & Hoth & _).
  destruct (processMetric line mf m s) as [[mf'|p] s1]; cbn [fst snd] in *.
  - destruct (IH mf' s1) as [Hlen' Hoth']. split; [congruence|].
    intros b [Hb1 Hb2]%not_elem_of_addresses_cons.
    rewrite Hoth' by done. by apply Hoth.
  - split; [done|]. intros b [Hb1 _]%not_elem_of_addresses_cons.
    by apply Hoth.
Qed.


(** In a completed loop over specifications with distinct collectors,
    every specification would have completed alone, and its collector
    ends as if the specification had been processed alone. *)
Lemma processMetrics_alone line mf metrics s b s' :
  NoDup (addresses metrics) →
  processMetrics line mf metrics s = (Ret b, s') →
  ∀ metric mf0, metric ∈ metrics →
    succeeds (processMetric line mf0 metric s).1 = true
    ∧ ∀ a, Collector_ metric = Some a →
           heap s' !! a = heap (processMetric line mf0 metric s).2 !! a.
Proof.
  revert mf s. induction metrics as [|m ms IH]; intros mf s Hnd Hrun metric mf0 Hin.
  { by apply elem_of_nil in Hin. }
  apply NoDup_addresses_cons in Hnd as [Hm Hnd].
  rewrite processMetrics_cons in Hrun.
  pose proof (processMetric_summary line mf m s) as (_ & Hoth & _).
  destruct (processMetric line mf m s) as [[mf'|p] s1] eqn:Hs1; [|done].
  simpl in Hoth.
  apply elem_of_cons in Hin as [->|Hin].
  - pose proof (processMetric_local line mf0 mf m s s (fun _ _ => eq_refl))
      as [Hsucc Hcell]. rewrite Hs1 in Hsucc, Hcell. simpl in *.
    split; [done|]. intros a Ha.
    destruct (processMetrics_others line mf' ms s1) as [_ Hoth'].
    rewrite Hrun in Hoth'. simpl in Hoth'.
    rewrite Hoth' by (by rewrite <- Ha). rewrite (Hcell a Ha). done.
  - destruct (IH mf' s1 Hnd Hrun metric mf0 Hin) as [Hsucc Hcell].
    assert (Hne : Collector_ m ≠ Collector_ metric).
    { intros Heq. apply Hm. rewrite Heq. by apply list_elem_of_fmap_2. }
    pose proof (processMetric_local line mf0 mf0 metric s1 s) as [Hsucc' Hcell'].
    { intros a Ha. apply Hoth. congruence. }
    simpl in *. split; [congruence|].
    intros a Ha. rewrite (Hcell a Ha). by apply Hcell'.
Qed.




(** ** Counters (C9) *)

(** On a counter specification, committing either panics and leaves the
    collector alone, or increments it (the selected series of it) by one. *)
Lemma commit_counter metric l v s a c k :
  Value metric = EmptyString →
  Collector_ metric = Some a →
  heap s !! a = Some c →
  (∀ names series, c = CounterVec names series →
     0 < length (Labels metric) →
     default [] (labelValues names l) = k) →
  let r := commit metric l v s in
  (succeeds r.1 = false ∧ heap r.2 !! a = Some c)
  ∨ (succeeds r.1 = true ∧ heap r.2 !! a = Some (incCell k c)).
Proof.
  intros Hv Ha Hc Hk. unfold commit, updateCell. rewrite Ha, Hc.
  destruct (decide (Value metric = EmptyString)); [|done].
  assert (Hlt : a < length (heap s)) by (by eapply lookup_lt_Some).
  destruct (decide (0 < length (Labels metric))) as [Hl|Hl].
  - destruct c as [n|names series|?|??]; simpl; try (by left).
    destruct (labelValues names l) as [k'|] eqn:Hlv; simpl; [|by left].
    right. split; [done|]. rewrite list_lookup_insert_eq by done.
    specialize (Hk names series eq_refl Hl). rewrite Hlv in Hk.
    simpl in Hk. by subst k'.
  - destruct c as [n|names series|?|??]; simpl; try (by left).
    right. split; [done|]. by rewrite list_lookup_insert_eq.
Qed.

(** One pass of the loop body over a counter specification leaves its
    collector as it was or incremented once; when the pass completes, it
    is incremented exactly when the pattern matched. *)
Lemma processMetric_counter line mf metric s a c :
  Value metric = EmptyString →
  Collector_ metric = Some a →
  heap s !! a = Some c →
  let k := selectedSeries line metric c in
  let r := processMetric line mf metric s in
  (heap r.2 !! a = Some c
   ∨ (matches line metric = true ∧ heap r.2 !! a = Some (incCell k c)))
  ∧ (succeeds r.1 = true →
     heap r.2 !! a = Some (if matches line metric then incCell k c else c)).
Proof.
  intros Hv Ha Hc.
  destruct (processMetric_cases line metric)
    as [[-> [H|[p H]]]|[-> (d & g & Hg & [[p H]|[(Hv' & _)|(_ & l & v & Hl & H)]])]];
    rewrite ?H; simpl; try done.
  - split; [by left|done].
  - split; [by left|done].
  - destruct (Hg s) as (Hh & _). rewrite Hh. split; [by left|done].
  - destruct (Hg s) as (Hh & _).
    destruct (commit_counter metric l v (g s) a c
                (selectedSeries line metric c) Hv Ha)
      as [[Hs Hcell]|[Hs Hcell]].
    + by rewrite Hh.
    + intros names series -> Hlab. simpl. by rewrite (Hl Hlab).
    + rewrite Hs, Hcell. split; [by left|done].
    + rewrite Hs, Hcell. split; [by right|done].
Qed.

Lemma selectedSeries_incCell line metric k c :
  selectedSeries line metric (incCell k c) = selectedSeries line metric c.
Proof. by destruct c. Qed.

(** Whatever the outcome of the loop, the collector of a counter
    specification is as before or incremented once. *)
Lemma processMetrics_counter line mf metrics metric s a c :
  NoDup (addresses metrics) →
  metric ∈ metrics →
  Value metric = EmptyString →
  Collector_ metric = Some a →
  heap s !! a = Some c →
  let k := selectedSeries line metric c in
  let r := processMetrics line mf metrics s in
  heap r.2 !! a = Some c
  ∨ (matches line metric = true ∧ heap r.2 !! a = Some (incCell k c)).
Proof.
  revert mf s. induction metrics as [|m ms IH]; intros mf s Hnd Hin Hv Ha Hc.
  { by apply elem_of_nil in Hin. }
  apply NoDup_addresses_cons in Hnd as [Hm Hnd].
  cbn zeta. rewrite processMetrics_cons.
  apply elem_of_cons in Hin as [->|Hin].
  - pose proof (processMetric_counter line mf m s a c Hv Ha Hc) as [Hone _].
    destruct (processMetric line mf m s) as [[mf'|p] s1]; cbn [fst snd] in *;
      [|done].
    destruct (processMetrics_others line mf' ms s1) as [_ Hoth].
    rewrite Hoth; [done|]. by rewrite <- Ha.
  - assert (Hne : Collector_ m ≠ Some a).
    { intros Heq. apply Hm. rewrite Heq, <- Ha. by apply list_elem_of_fmap_2. }
    pose proof (processMetric_summary line mf m s) as (_ & Hoth & _).
    specialize (Hoth a Hne).
    destruct (processMetric line mf m s) as [[mf'|p] s1]; cbn [fst snd] in *.
    + apply IH; try done. by rewrite Hoth.
    + left. by rewrite Hoth.
Qed.

(** C9: line processing never sets the collector of a counter
    specification: after the loop over the specifications (with distinct
    collectors) it is as before or incremented once, by one, on the series
    the extracted label values select; when the loop completes it is
    incremented exactly when the line matches the specification, and
    processing the same matching line again increments it again. *)
Theorem counter_only_incremented (line : string) (mf mf' : bool)
  (metrics : list Metric) (metric : Metric) (a : nat) (c : Collector)
  (s : State)
  (Hdistinct : NoDup (addresses metrics))
  (Hin : metric ∈ metrics)
  (Hcounter : Value metric = EmptyString)
  (Haddr : Collector_ metric = Some a)
  (Hcell : heap s !! a = Some c)
  (Hshape : shape c = IsCounter ∨ shape c = IsCounterVec) :
  let k := selectedSeries line metric c in
  let r1 := processMetrics line mf metrics s in
  let r2 := processMetrics line mf' metrics r1.2 in
  (heap r1.2 !! a = Some c
   ∨ (matches line metric = true ∧ heap r1.2 !! a = Some (incCell k c)))
  ∧ (succeeds r1.1 = true →
     heap r1.2 !! a = Some (if matches line metric then incCell k c else c))
  ∧ (succeeds r1.1 = true → succeeds r2.1 = true →
     matches line metric = true →
     heap r2.2 !! a = Some (incCell k (incCell k c))).
Proof.
  assert (Hret : ∀ mf0 s0 c0, heap s0 !! a = Some c0 →
    succeeds (processMetrics line mf0 metrics s0).1 = true →
    heap (processMetrics line mf0 metrics s0).2 !! a
    = Some (if matches line metric
            then incCell (selectedSeries line metric c0) c0 else c0)).
  { intros mf0 s0 c0 Hc0 Hs.
    destruct (processMetrics line mf0 metrics s0) as [[b|p] s1] eqn:Hrun;
      [|done].
    destruct (processMetrics_alone _ _ _ _ _ _ Hdistinct Hrun metric false Hin)
      as [Hsucc Hsame].
    pose proof (processMetric_counter line false metric s0 a c0
                  Hcounter Haddr Hc0) as [_ Hone].
    simpl. rewrite (Hsame a Haddr). by apply Hone. }
  cbn zeta. split_and!.
  - by apply processMetrics_counter.
  - by apply Hret.
  - intros Hs1 Hs2 Hm. pose proof (Hret mf s c Hcell Hs1) as H1.
    rewrite Hm in H1. pose proof (Hret mf' _ _ H1 Hs2) as H2.
    by rewrite Hm, selectedSeries_incCell in H2.
Qed.

(** ** The helpers on their own: [indexOf], [getValue], [getLabels] *)

Lemma indexOf_from_spec (k : Z) (word : string) (data : list string) :
  (indexOf_from k word data = (-1)%Z ∧ word ∉ data)
  ∨ (∃ i : nat, indexOf_from k word data = (k + Z.of_nat i)%Z
       ∧ data !! i = Some word
       ∧ ∀ j, j < i → data !! j ≠ Some word).
Proof.
  revert k. induction data as [|v data IH]; intros k; simpl.
  - left. split; [done|]. apply not_elem_of_nil.
  - destruct (decide (word = v)) as [->|Hne].
    + right. exists 0. split_and!; [lia|done|lia].
    + destruct (IH (k + 1)%Z) as [[-> Hnot]|(i & -> & Hi & Hfirst)].
      * left. split; [done|]. by apply not_elem_of_cons.
      * right. exists (S i). split_and!; [lia|done|].
        intros [|j] Hj; simpl; [congruence|]. apply Hfirst. lia.
Qed.

(** [indexOf] returns -1 exactly when the word is not in the list, and
    otherwise the index of its first occurrence. *)
Theorem indexOf_first_occurrence (word : string) (data : list string) :
  (indexOf word data = (-1)%Z ↔ word ∉ data)
  ∧ (∀ i : nat, indexOf word data = Z.of_nat i ↔
       (data !! i = Some word ∧ ∀ j, j < i → data !! j ≠ Some word))
  ∧ (indexOf word data = (-1)%Z
     ∨ (0 ≤ indexOf word data < Z.of_nat (length data))%Z).
Proof.
  unfold indexOf.
  destruct (indexOf_from_spec 0 word data)
    as [[Hm Hnot]|(i & Hi & Hat & Hfirst)].
  - split_and!; [done| |by left].
    intros i. rewrite Hm. split; [lia|]. intros [Hat _].
    destruct Hnot. by eapply list_elem_of_lookup_2.
  - rewrite Hi. split_and!.
    + split; [lia|]. intros Hnot. destruct Hnot.
      by eapply list_elem_of_lookup_2.
    + intros i'. split.
      * intros Heq. assert (i' = i) as -> by lia. done.
      * intros [Hat' Hfirst'].
        destruct (Nat.lt_trichotomy i i') as [Hlt|[->|Hlt]]; [|done|].
        -- by destruct (Hfirst' i Hlt).
        -- by destruct (Hfirst i' Hlt).
    + right. apply lookup_lt_Some in Hat. lia.
Qed.

Lemma indexOf_elem (word : string) (data : list string) :
  word ∈ data →
  ∃ i : nat, indexOf word data = Z.of_nat i ∧ data !! i = Some word.
Proof.
  intros Hin. unfold indexOf.
  destruct (indexOf_from_spec 0 word data) as [[_ Hnot]|(i & Hi & Hat & _)];
    [done|].
  exists i. split; [lia|done].
Qed.

Lemma elemAt_in_range (results : list string) (i : nat) (r : string)
  (s : State) :
  results !! i = Some r → elemAt results (Z.of_nat i) s = (Ret r, s).
Proof.
  intros Hr. unfold elemAt.
  destruct (Z.ltb_spec (Z.of_nat i) 0); [lia|]. by rewrite Nat2Z.id, Hr.
Qed.

(** A name among the group names has a submatch, when there are at
    least as many submatches as group names. *)
Lemma named_submatch (word : string) (groupNames results : list string) :
  (length groupNames ≤ length results)%nat →
  word ∈ groupNames →
  ∃ (i : nat) r, indexOf word groupNames = Z.of_nat i
                 ∧ results !! i = Some r.
Proof.
  intros Hlen (i & Hi & Hat)%indexOf_elem.
  apply lookup_lt_Some in Hat.
  destruct (lookup_lt_is_Some_2 results i) as [r Hr]; [lia|].
  by exists i, r.
Qed.

(** When the value name is among the group names and every group has a
    submatch, [getValue] does not panic: it returns the parsed submatch
    of the first group of that name, or zero and an error when that
    submatch is not a number. *)
Theorem getValue_named_group (valueName : string)
  (groupNames results : list string) (s : State)
  (Hlen : (length groupNames ≤ length results)%nat)
  (Hin : valueName ∈ groupNames) :
  ∃ (i : nat) r,
    indexOf valueName groupNames = Z.of_nat i
    ∧ results !! i = Some r
    ∧ getValue valueName groupNames results s
      = (Ret match ParseFloat r with
             | Some v => (v, None)
             | None => (float64_zero, Some ErrParseFloat)
             end, s).
Proof.
  destruct (named_submatch _ _ _ Hlen Hin) as (i & r & Hi & Hr).
  exists i, r. split_and!; [done|done|].
  unfold getValue, bind. rewrite Hi, (elemAt_in_range _ _ _ _ Hr).
  by destruct (ParseFloat r).
Qed.

Lemma getLabels_loop_found (labelNames groupNames results : list string)
  (val : gmap string string) (s : State) :
  (length groupNames ≤ length results)%nat →
  Forall (fun n => n ∈ groupNames) labelNames →
  ∃ l, getLabels_loop labelNames groupNames results val s = (Ret (l, None), s)
       ∧ ∀ n, l !! n = if decide (n ∈ labelNames)
                       then results !! Z.to_nat (indexOf n groupNames)
                       else val !! n.
Proof.
  intros Hlen. revert val.
  induction labelNames as [|n0 names IH]; intros val Hall; simpl.
  - exists val. split; [done|]. intros n.
    destruct (decide (n ∈ [])) as [Hin|_]; [|done]. by apply elem_of_nil in Hin.
  - apply Forall_cons in Hall as [Hn0 Hall].
    destruct (named_submatch _ _ _ Hlen Hn0) as (i & r & Hi & Hr).
    rewrite Hi. destruct (decide (Z.of_nat i = (-1)%Z)) as [Hbad|_]; [lia|].
    unfold bind. rewrite (elemAt_in_range _ _ _ _ Hr).
    destruct (IH (<[n0 := r]> val) Hall) as (l & -> & Hl).
    exists l. split; [done|]. intros n. rewrite Hl.
    destruct (decide (n ∈ names)) as [Hin|Hnin].
    + rewrite decide_True; [done|]. apply elem_of_cons. by right.
    + destruct (decide (n = n0)) as [->|Hne].
      * rewrite decide_True by (apply elem_of_cons; by left).
        by rewrite lookup_insert_eq, Hi, Nat2Z.id.
      * rewrite decide_False by (rewrite elem_of_cons; intros [?|?]; done).
        by rewrite lookup_insert_ne.
Qed.

(** When every label name is among the group names and every group has
    a submatch, [getLabels] returns, without error, the mapping whose
    keys are exactly the label names, each mapped to the submatch of the
    first group of that name. *)
Theorem getLabels_all_found (labelNames groupNames results : list string)
  (s : State)
  (Hlen : (length groupNames ≤ length results)%nat)
  (Hall : Forall (fun n => n ∈ groupNames) labelNames) :
  ∃ l, getLabels labelNames groupNames results s = (Ret (l, None), s)
       ∧ (∀ n, n ∈ labelNames →
            ∃ (i : nat) r, indexOf n groupNames = Z.of_nat i
                           ∧ results !! i = Some r ∧ l !! n = Some r)
       ∧ (∀ n, n ∉ labelNames → l !! n = None).
Proof.
  destruct (getLabels_loop_found labelNames groupNames results ∅ s Hlen Hall)
    as (l & Hrun & Hl).
  exists l. split_and!; [done| |].
  - intros n Hin. rewrite Forall_forall in Hall.
    destruct (named_submatch _ _ _ Hlen (Hall n Hin)) as (i & r & Hi & Hr).
    exists i, r. split_and!; [done|done|].
    by rewrite Hl, decide_True, Hi, Nat2Z.id.
  - intros n Hnin. by rewrite Hl, decide_False.
Qed.

Lemma getLabels_loop_missing (labelNames groupNames results : list string)
  (val : gmap string string) (s : State) (n : string) :
  (length groupNames ≤ length results)%nat →
  n ∈ labelNames → n ∉ groupNames →
  getLabels_loop labelNames groupNames results val s
  = (Ret (∅, Some ErrLabelNotFound), s).
Proof.
  intros Hlen Hin Hnot. revert val.
  induction labelNames as [|n0 names IH]; intros val; simpl.
  { by apply elem_of_nil in Hin. }
  destruct (decide (n0 ∈ groupNames)) as [Hn0|Hn0].
  - destruct (named_submatch _ _ _ Hlen Hn0) as (i & r & Hi & Hr).
    rewrite Hi. destruct (decide (Z.of_nat i = (-1)%Z)) as [Hbad|_]; [lia|].
    unfold bind. rewrite (elemAt_in_range _ _ _ _ Hr).
    apply IH. apply elem_of_cons in Hin as [->|Hin]; done.
  - destruct (indexOf_from_spec 0 n0 groupNames)
      as [[Hm _]|(i & _ & Hat & _)].
    + unfold indexOf. rewrite Hm. by rewrite decide_True.
    + destruct Hn0. by eapply list_elem_of_lookup_2.
Qed.

(** When some label name is not among the group names (and every group
    has a submatch), [getLabels] returns the nil mapping and an error:
    no partial mapping, and no panic. *)
Theorem getLabels_missing_name (labelNames groupNames results : list string)
  (s : State) (n : string)
  (Hlen : (length groupNames ≤ length results)%nat)
  (Hin : n ∈ labelNames)
  (Hnot : n ∉ groupNames) :
  getLabels labelNames groupNames results s
  = (Ret (∅, Some ErrLabelNotFound), s).
Proof. by eapply getLabels_loop_missing. Qed.

(** ** A consistent configuration never aborts *)

Lemma getValue_found (valueName : string) (groupNames results : list string)
  (s : State) :
  (length groupNames ≤ length results)%nat →
  valueName ∈ groupNames →
  ∃ (i : nat) r,
    indexOf valueName groupNames = Z.of_nat i
    ∧ results !! i = Some r
    ∧ getValue valueName groupNames results s
      = (Ret match ParseFloat r with
             | Some v => (v, None)
             | None => (float64_zero, Some ErrParseFloat)
             end, s).
Proof.
  intros Hlen Hin.
  destruct (named_submatch _ _ _ Hlen Hin) as (i & r & Hi & Hr).
  exists i, r. split_and!; [done|done|].
  unfold getValue, bind. rewrite Hi, (elemAt_in_range _ _ _ _ Hr).
  by destruct (ParseFloat r).
Qed.

(** The series key [With] computes from a mapping that holds exactly the
    label names of the vector. *)
Lemma labelValues_complete (names : list string) (l : gmap string string) :
  NoDup names →
  (∀ n, n ∈ names ↔ is_Some (l !! n)) →
  ∃ key, labelValues names l = Some key
         ∧ Forall2 (fun n r => l !! n = Some r) names key.
Proof.
  intros Hnd Hdom. unfold labelValues.
  assert (Hsize : size l = length names).
  { rewrite <- size_dom, <- (size_list_to_set (C:=gset string) names) by done.
    f_equal. apply set_eq. intros n.
    by rewrite elem_of_dom, elem_of_list_to_set, Hdom. }
  rewrite decide_True by done.
  destruct (mapM_is_Some_2 (fun n => l !! n) names) as [key Hkey].
  { apply Forall_forall. intros n Hn. by apply Hdom. }
  exists key. split; [done|]. by apply mapM_Some_1.
Qed.

Lemma extractValue_ready metric result s :
  (length (GroupName metric) ≤ length result)%nat →
  (Value metric = EmptyString ∨ Value metric ∈ GroupName metric) →
  ∃ b s1, extractValue metric result s = (Ret b, s1) ∧ heap s1 = heap s.
Proof.
  intros Hlen Hv. unfold extractValue.
  destruct (decide (Value metric ≠ EmptyString)) as [Hne|_];
    [|by eexists _, _].
  destruct Hv as [?|Hin]; [done|].
  destruct (getValue_found _ _ _ s Hlen Hin) as (i & r & _ & _ & Hrun).
  unfold bind. rewrite Hrun.
  destruct (ParseFloat r); simpl; by eexists _, _.
Qed.

Lemma extractLabels_ready metric result s :
  (length (GroupName metric) ≤ length result)%nat →
  Forall (fun n => n ∈ GroupName metric) (Labels metric) →
  ∃ s1, extractLabels metric result s = (Ret tt, s1)
        ∧ heap s1 = heap s ∧ value s1 = value s
        ∧ (0 < length (Labels metric) →
           ∀ n, n ∈ Labels metric ↔ is_Some (labels s1 !! n)).
Proof.
  intros Hlen Hall. unfold extractLabels.
  destruct (decide (0 < length (Labels metric))) as [Hl|Hl].
  - destruct (getLabels_loop_found (Labels metric) (GroupName metric) result
                ∅ s Hlen Hall) as (l & Hrun & Hlook).
    unfold bind, getLabels. rewrite Hrun. simpl.
    eexists. split_and!; [done|done|done|]. intros _ name. simpl.
    rewrite Hlook. destruct (decide (name ∈ Labels metric)) as [Hin|Hnin].
    + rewrite Forall_forall in Hall.
      destruct (named_submatch _ _ _ Hlen (Hall name Hin))
        as (i & r & Hi & Hr).
      rewrite Hi, Nat2Z.id, Hr. split; [by eexists|done].
    + rewrite lookup_empty. split; [done|by intros [? ?]].
  - exists s. split_and!; [done|done|done|]. intros ?. done.
Qed.

Lemma update_ready metric s a c :
  Collector_ metric = Some a →
  heap s !! a = Some c →
  kind c = kind (newCollector metric) →
  NoDup (Labels metric) →
  (0 < length (Labels metric) →
   ∀ n, n ∈ Labels metric ↔ is_Some (labels s !! n)) →
  ∃ c', update metric s = (Ret tt, set_heap (<[a := c']> (heap s)) s)
        ∧ kind c' = kind c.
Proof.
  intros Ha Hc Hk Hnd Hl. rewrite update_spec, Ha, Hc.
  unfold kind, newCollector in Hk. unfold updateCell.
  destruct (decide (Value metric = EmptyString)) as [Hv|Hv];
    destruct (decide (0 < length (Labels metric))) as [Hlab|Hlab];
    (destruct (decide (Value metric ≠ EmptyString)) as [Hv'|Hv'];
     try done);
    destruct c as [cnt|names series|x|names series]; simpl in Hk; try done;
    try (injection Hk as ->;
         destruct (labelValues_complete (Labels metric) (labels s) Hnd
                     (Hl Hlab)) as (key & -> & _));
    by eexists.
Qed.

Lemma processMetric_ready_succeeds line mf metric s :
  regular → consistent metric → ready metric s →
  succeeds (processMetric line mf metric s).1 = true.
Proof.
  intros Hreg (Hv & Hall & Hnd) (re & a & c & Hre & Hgn & Ha & Hc & Hk).
  unfold processMetric. rewrite Hre.
  destruct (decide (length (FindStringSubmatch re line) ≠ 0)) as [Hm|_];
    [|done].
  assert (Hlen : (length (GroupName metric)
                  ≤ length (FindStringSubmatch re line))%nat).
  { destruct (Hreg re line) as [Hnil|Heq]; [by rewrite Hnil in Hm|].
    rewrite Hgn. lia. }
  unfold bind at 1, matchedLines_Inc, modify. unfold bind at 1, onMatch.
  set (s0 := set_matchedLines (matchedLines s + 1) s).
  destruct (extractValue_ready metric _ s0 Hlen Hv) as (b & s1 & Hev & Hh1).
  unfold bind at 1. rewrite Hev. destruct b; [|done].
  destruct (extractLabels_ready metric _ s1 Hlen Hall)
    as (s2 & Hel & Hh2 & _ & Hlab).
  unfold bind at 1. rewrite Hel.
  destruct (update_ready metric s2 a c Ha) as (c' & Hup & _); try done.
  { by rewrite Hh2, Hh1. }
  by rewrite Hup.
Qed.

Lemma updateCell_kind metric l v c c' :
  updateCell metric l v c = Ret c' → kind c' = kind c.
Proof.
  unfold updateCell. repeat case_decide; destruct c; try done;
    try (destruct (labelValues _ _); [|done]); by intros [= <-].
Qed.

Lemma kind_insert (h : list Collector) a c c' :
  h !! a = Some c → kind c' = kind c →
  kind <$> <[a := c']> h = kind <$> h.
Proof.
  intros Ha Hs. rewrite list_fmap_insert, Hs.
  apply list_insert_id. by rewrite list_lookup_fmap, Ha.
Qed.

Lemma commit_kinds metric l v s :
  kind <$> heap (commit metric l v s).2 = kind <$> heap s.
Proof.
  unfold commit. destruct (Collector_ metric) as [a|]; [|done].
  destruct (heap s !! a) as [c|] eqn:Hc; [|done].
  destruct (updateCell metric l v c) as [c'|p] eqn:Hu; [|done].
  simpl. eapply kind_insert; [done|]. by eapply updateCell_kind.
Qed.

(** Line processing never changes the kind of a collector: neither its
    shape nor the label names of a vector. *)
Lemma processMetric_kinds line mf metric :
  preserves (keeps (fun s => kind <$> heap s)) (processMetric line mf metric).
Proof.
  intros s. unfold keeps.
  destruct (processMetric_cases line metric)
    as [[_ [H|[p H]]]|[_ (d & g & Hg & [[p H]|[(_ & _ & H)|(_ & l & v & _ & H)]])]];
    rewrite !H; simpl; try done.
  - destruct (Hg s) as (-> & _). done.
  - destruct (Hg s) as (-> & _). done.
  - rewrite commit_kinds. destruct (Hg s) as (-> & _). done.
Qed.

Lemma processMetrics_kinds line mf metrics :
  preserves (keeps (fun s => kind <$> heap s)) (processMetrics line mf metrics).
Proof.
  revert mf. induction metrics as [|m ms IH]; intros mf; simpl; [frame|].
  apply preserves_bind; [apply _|apply processMetric_kinds|intros ?; apply IH].
Qed.

Lemma processLine_kinds cnf line :
  preserves (keeps (fun s => kind <$> heap s)) (processLine cnf line).
Proof.
  unfold processLine, totalLines_Inc, bytesRead_Add, fmt_Println.
  apply preserves_bind; [apply _|frame|intros _].
  apply preserves_bind; [apply _|frame|intros _].
  apply preserves_bind; [apply _|apply processMetrics_kinds|intros ?; frame].
Qed.

Lemma ready_kinds metric s s' :
  kind <$> heap s' = kind <$> heap s → ready metric s → ready metric s'.
Proof.
  intros Hk (re & a & c & Hre & Hgn & Ha & Hc & Hkc).
  assert (Hl : (kind <$> heap s') !! a = Some (kind c)).
  { by rewrite Hk, list_lookup_fmap, Hc. }
  rewrite list_lookup_fmap in Hl. apply fmap_Some in Hl as (c' & Hc' & Hkc').
  exists re, a, c'. split_and!; try done. congruence.
Qed.

Lemma processMetrics_ready_succeeds line mf metrics s :
  regular →
  Forall consistent metrics →
  Forall (fun m => ready m s) metrics →
  succeeds (processMetrics line mf metrics s).1 = true.
Proof.
  intros Hreg. revert mf s.
  induction metrics as [|m ms IH]; intros mf s Hcons Hready; [done|].
  apply Forall_cons in Hcons as [Hc Hcons].
  apply Forall_cons in Hready as [Hr Hready].
  rewrite processMetrics_cons.
  pose proof (processMetric_ready_succeeds line mf m s Hreg Hc Hr) as Hs.
  pose proof (processMetric_kinds line mf m s) as Hk.
  destruct (processMetric line mf m s) as [[mf'|p] s1]; [|done].
  apply IH; [done|]. eapply Forall_impl; [exact Hready|].
  intros m' Hm'. exact (ready_kinds m' s s1 Hk Hm').
Qed.

Lemma processLine_ready_succeeds cnf line s :
  regular →
  Forall consistent (Metrics cnf) →
  Forall (fun m => ready m s) (Metrics cnf) →
  succeeds (processLine cnf line s).1 = true.
Proof.
  intros Hreg Hcons Hready.
  unfold processLine, bind, totalLines_Inc, bytesRead_Add, modify. simpl.
  match goal with |- context [processMetrics line false ?ms ?s0] =>
    pose proof (processMetrics_ready_succeeds line false ms s0 Hreg Hcons) as Hs;
    destruct (processMetrics line false ms s0) as [[b|p] s1]
  end.
  - by destruct (forwarded _ _ _).
  - apply Hs. eapply Forall_impl; [exact Hready|].
    intros m Hm. exact (ready_kinds m s _ eq_refl Hm).
Qed.

Lemma scanLoop_ready_succeeds cnf lines s :
  regular →
  Forall consistent (Metrics cnf) →
  Forall (fun m => ready m s) (Metrics cnf) →
  succeeds (scanLoop cnf lines s).1 = true.
Proof.
  intros Hreg Hcons. revert s.
  induction lines as [|line lines IH]; intros s Hready; [done|].
  simpl. unfold bind.
  pose proof (processLine_ready_succeeds cnf line s Hreg Hcons Hready) as Hs.
  pose proof (processLine_kinds cnf line s) as Hk.
  destruct (processLine cnf line s) as [[[]|p] s1]; [|done].
  apply IH. eapply Forall_impl; [exact Hready|].
  intros m Hm. exact (ready_kinds m s s1 Hk Hm).
Qed.

Lemma ready_extend metric s s' ext :
  heap s' = (heap s ++ ext)%list → ready metric s → ready metric s'.
Proof.
  intros Hh (re & a & c & Hre & Hgn & Ha & Hc & Hk).
  exists re, a, c. split_and!; try done.
  rewrite Hh. by apply lookup_app_l_Some.
Qed.

Lemma startMetric_ready basename metric s m' s' :
  startMetric basename metric s = (Ret m', s') →
  ready m' s' ∧ heap s' = (heap s ++ [newCollector metric])%list.
Proof.
  intros Hrun.
  pose proof (startMetric_spec _ _ _ _ _ Hrun) as (Hh & Hc & Hv & Hl).
  split; [|done].
  unfold startMetric in Hrun.
  destruct (Compile (Regex metric)) as [re|]; [|done].
  apply bind_Ret_inv in Hrun as (a & s1 & Ha & Hrun).
  apply bind_Ret_inv in Hrun as (u & s2 & Hr & [= <- <-]).
  rewrite alloc_spec in Ha. injection Ha as <- <-.
  exists re, (length (heap s)), (newCollector metric).
  split_and!; try done.
  rewrite Hh. by apply list_lookup_middle.
Qed.

Lemma startMetrics_ready basename metrics s ms' s' :
  startMetrics basename metrics s = (Ret ms', s') →
  Forall (fun m => ready m s') ms'.
Proof.
  revert s ms' s'. induction metrics as [|m ms IH]; intros s ms' s'; simpl.
  - intros [= <- <-]. constructor.
  - intros (m1 & s1 & H1 & (ms1 & s2 & H2 & [= <- <-])%bind_Ret_inv)%bind_Ret_inv.
    apply startMetric_ready in H1 as [Hr1 _].
    pose proof (startMetrics_spec _ _ _ _ _ H2) as (Hh2 & _).
    constructor; [by eapply ready_extend|by eapply IH].
Qed.

Lemma startup_ready cnf s cnf' s' :
  startup cnf s = (Ret cnf', s') →
  Forall (fun m => ready m s') (Metrics cnf').
Proof.
  unfold startup. intros Hstart.
  apply bind_Ret_inv in Hstart as (ms & s1 & Hms & Hrest).
  apply bind_Ret_inv in Hrest as (? & s2 & H2 & Hrest).
  apply bind_Ret_inv in Hrest as (? & s3 & H3 & Hrest).
  apply bind_Ret_inv in Hrest as (? & s4 & H4 & [= <- <-]).
  apply startMetrics_ready in Hms.
  apply (preserves_run _ _ _ _ _ (MustRegister_keeps_heap _ _)) in H2, H3, H4.
  unfold keeps in *. simpl.
  eapply Forall_impl; [exact Hms|]. intros m Hm.
  eapply ready_kinds; [|exact Hm]. congruence.
Qed.

(** When the regular-expression engine returns one submatch per group,
    and start-up succeeds on a configuration in which every declared
    value and label name is a group name of the metric's pattern and no
    label is declared twice, the scanner loop never panics, whatever the
    input lines. *)
Theorem consistent_configuration_never_panics (cnf cnf' : Data)
  (s s' : State) (lines : list string)
  (Hreg : regular)
  (Hstart : startup cnf s = (Ret cnf', s'))
  (Hcons : Forall consistent (Metrics cnf')) :
  succeeds (scanLoop cnf' lines s').1 = true
  ∧ succeeds (main cnf lines s).1 = true.
Proof.
  assert (Hs : succeeds (scanLoop cnf' lines s').1 = true).
  { apply scanLoop_ready_succeeds; [done|done|]. by eapply startup_ready. }
  split; [done|]. unfold main, bind. by rewrite Hstart.
Qed.

(** ** Gauges *)

(** The loop body on a matching line whose value submatch parses, up to
    the update. *)
Lemma processMetric_parsed line mf metric s re (k : nat) r v :
  Compiled metric = Some re →
  length (FindStringSubmatch re line) ≠ 0 →
  Value metric ≠ EmptyString →
  indexOf (Value metric) (GroupName metric) = Z.of_nat k →
  FindStringSubmatch re line !! k = Some r →
  ParseFloat r = Some v →
  processMetric line mf metric s =
  bind (extractLabels metric (FindStringSubmatch re line))
       (fun _ => bind (update metric) (fun _ => ret true))
       (set_value v (set_matchedLines (matchedLines s + 1) s)).
Proof.
  intros Hre Hm Hval Hidx Hsub Hparse.
  unfold processMetric. rewrite Hre.
  destruct (decide (length (FindStringSubmatch re line) ≠ 0)); [|done].
  unfold onMatch, extractValue.
  destruct (decide (Value metric ≠ EmptyString)); [|done].
  unfold bind, matchedLines_Inc, modify, getValue. rewrite Hidx.
  unfold bind. rewrite (elemAt_in_range _ _ _ _ Hsub), Hparse. simpl.
  by destruct (extractLabels _ _ _) as [[[]|?] ?].
Qed.

Lemma gauge_step line mf metric s re (k : nat) r v a old :
  Compiled metric = Some re →
  length (FindStringSubmatch re line) ≠ 0 →
  Value metric ≠ EmptyString →
  Labels metric = [] →
  indexOf (Value metric) (GroupName metric) = Z.of_nat k →
  FindStringSubmatch re line !! k = Some r →
  ParseFloat r = Some v →
  Collector_ metric = Some a →
  heap s !! a = Some (Gauge old) →
  ∃ s1, processMetric line mf metric s = (Ret true, s1)
        ∧ heap s1 = <[a := Gauge v]> (heap s)
        ∧ matchedLines s1 = matchedLines s + 1
        ∧ badFloats s1 = badFloats s.
Proof.
  intros Hre Hm Hval Hnl Hidx Hsub Hparse Ha Hc.
  rewrite (processMetric_parsed _ _ _ _ _ _ _ _ Hre Hm Hval Hidx Hsub Hparse).
  unfold bind at 1, extractLabels. rewrite Hnl. simpl.
  unfold bind. rewrite update_spec, Ha. simpl. rewrite Hc.
  unfold updateCell. rewrite Hnl.
  destruct (decide (Value metric = EmptyString)); [done|]. simpl.
  eexists. split; [reflexivity|]. done.
Qed.

(** A gauge without labels is set to the value parsed from the named
    submatch of a matching line, whatever it held before; no extraction
    failure is counted, and processing the same line again leaves every
    collector as it is. *)
Theorem gauge_takes_parsed_value (line : string) (mf mf' : bool)
  (metric : Metric) (s : State) (re : Regexp) (k : nat) (r : string)
  (v old : float64) (a : nat)
  (Hre : Compiled metric = Some re)
  (Hmatch : length (FindStringSubmatch re line) ≠ 0)
  (Hval : Value metric ≠ EmptyString)
  (Hnolabels : Labels metric = [])
  (Hidx : indexOf (Value metric) (GroupName metric) = Z.of_nat k)
  (Hsub : FindStringSubmatch re line !! k = Some r)
  (Hparse : ParseFloat r = Some v)
  (Haddr : Collector_ metric = Some a)
  (Hcell : heap s !! a = Some (Gauge old)) :
  ∃ s1, processMetric line mf metric s = (Ret true, s1)
    ∧ heap s1 = <[a := Gauge v]> (heap s)
    ∧ matchedLines s1 = matchedLines s + 1
    ∧ badFloats s1 = badFloats s
    ∧ ∃ s2, processMetric line mf' metric s1 = (Ret true, s2)
            ∧ heap s2 = heap s1.
Proof.
  destruct (gauge_step line mf metric s re k r v a old)
    as (s1 & Hrun & Hh & Hm & Hb); try done.
  exists s1. split_and!; try done.
  assert (Hc1 : heap s1 !! a = Some (Gauge v)).
  { rewrite Hh. apply list_lookup_insert_eq. by eapply lookup_lt_Some. }
  destruct (gauge_step line mf' metric s1 re k r v a v)
    as (s2 & Hrun2 & Hh2 & _); try done.
  exists s2. split; [done|]. by rewrite Hh2, Hh, list_insert_insert_eq.
Qed.

(** A labelled gauge: the series selected by the submatches of the label
    groups, in the order of the declared labels, is set to the parsed
    value; the other series and the label names are as before. *)
Theorem gaugeVec_sets_selected_series (line : string) (mf : bool)
  (metric : Metric) (s : State) (re : Regexp) (k : nat) (r : string)
  (v : float64) (a : nat) (series : gmap (list string) float64)
  (Hre : Compiled metric = Some re)
  (Hmatch : length (FindStringSubmatch re line) ≠ 0)
  (Hval : Value metric ≠ EmptyString)
  (Hlabels : 0 < length (Labels metric))
  (Hlen : (length (GroupName metric)
           ≤ length (FindStringSubmatch re line))%nat)
  (Hall : Forall (fun n => n ∈ GroupName metric) (Labels metric))
  (Hnodup : NoDup (Labels metric))
  (Hidx : indexOf (Value metric) (GroupName metric) = Z.of_nat k)
  (Hsub : FindStringSubmatch re line !! k = Some r)
  (Hparse : ParseFloat r = Some v)
  (Haddr : Collector_ metric = Some a)
  (Hcell : heap s !! a = Some (GaugeVec (Labels metric) series)) :
  ∃ key s1,
    Forall2 (fun n x => ∃ i : nat,
               indexOf n (GroupName metric) = Z.of_nat i
               ∧ FindStringSubmatch re line !! i = Some x)
            (Labels metric) key
    ∧ processMetric line mf metric s = (Ret true, s1)
    ∧ heap s1
      = <[a := GaugeVec (Labels metric) (<[key := v]> series)]> (heap s)
    ∧ badFloats s1 = badFloats s.
Proof.
  rewrite (processMetric_parsed _ _ _ _ _ _ _ _ Hre Hmatch Hval Hidx Hsub Hparse).
  set (s0 := set_value v (set_matchedLines (matchedLines s + 1) s)).
  set (res := FindStringSubmatch re line) in *.
  destruct (getLabels_loop_found (Labels metric) (GroupName metric) res ∅ s0
              Hlen Hall) as (l & Hrun & Hlook).
  destruct (labelValues_complete (Labels metric) l Hnodup) as (key & Hkey & Hf2).
  { intros n. rewrite Hlook.
    destruct (decide (n ∈ Labels metric)) as [Hin|Hnin].
    - rewrite Forall_forall in Hall.
      destruct (named_submatch _ _ _ Hlen (Hall n Hin)) as (i & x & Hi & Hx).
      rewrite Hi, Nat2Z.id, Hx. split; [by eexists|done].
    - rewrite lookup_empty. split; [done|by intros [? ?]]. }
  exists key. eexists. split_and!.
  - eapply Forall2_impl; [exact Hf2|]. intros n x Hn. simpl in Hn.
    rewrite Hlook in Hn.
    destruct (decide (n ∈ Labels metric)) as [Hin|Hnin];
      [|by rewrite lookup_empty in Hn].
    rewrite Forall_forall in Hall.
    destruct (named_submatch _ _ _ Hlen (Hall n Hin)) as (i & x' & Hi & Hx).
    exists i. split; [done|]. by rewrite Hi, Nat2Z.id in Hn.
  - unfold bind at 1, extractLabels.
    destruct (decide (0 < length (Labels metric))); [|done].
    unfold bind at 1, getLabels. rewrite Hrun. simpl.
    unfold bind. rewrite update_spec, Haddr. simpl. rewrite Hcell.
    unfold updateCell.
    destruct (decide (Value metric = EmptyString)); [done|].
    destruct (decide (0 < length (Labels metric))); [|done].
    rewrite Hkey. reflexivity.
  - done.
  - done.
Qed.

(** ** The scanner loop as a whole *)

Lemma processLine_completed cnf line s s' :
  processLine cnf line s = (Ret tt, s') →
  totalLines s' = totalLines s + 1
  ∧ bytesRead s' = bytesRead s + String.length line
  ∧ stdout s' =
    (stdout s ++
     if forwarded (EatAll cnf) (EatMatches cnf)
          (existsb (matches line) (Metrics cnf))
     then [line] else [])%list.
Proof.
  unfold processLine, bind, totalLines_Inc, bytesRead_Add, modify,
    fmt_Println. simpl.
  match goal with |- context [processMetrics line false ?ms ?s0] =>
    pose proof (processMetrics_frame line false ms s0) as [_ _ Ht Hb Ho];
    pose proof (processMetrics_matchFound line false ms s0) as Hmf;
    destruct (processMetrics line false ms s0) as [[b|p] s1]
  end; simpl in *; [|done].
  rewrite (Hmf b s1 eq_refl). simpl.
  destruct (forwarded _ _ _); intros [= <-]; simpl;
    rewrite Ht, Hb, Ho; split_and!; try done.
  by rewrite app_nil_r.
Qed.

Lemma filter_none {A} (P : A → Prop) `{∀ x, Decision (P x)} (l : list A) :
  (∀ x, ¬ P x) → filter P l = [].
Proof.
  intros HP. induction l as [|x l IH]; [done|].
  by rewrite filter_cons, decide_False.
Qed.

Lemma filter_all {A} (P : A → Prop) `{∀ x, Decision (P x)} (l : list A) :
  (∀ x, P x) → filter P l = l.
Proof.
  intros HP. induction l as [|x l IH]; [done|].
  by rewrite filter_cons, decide_True, IH.
Qed.

(** A scanner loop that completes has counted every line and every byte
    of every line, and has printed, in input order, exactly the lines
    the pass-through policy forwards: none when [eatAll] is set, all of
    them when neither flag is set. *)
Theorem scanLoop_totals_and_output (cnf : Data) (lines : list string)
  (s s' : State)
  (Hrun : scanLoop cnf lines s = (Ret tt, s')) :
  totalLines s' = totalLines s + length lines
  ∧ bytesRead s' = bytesRead s + sum_list_with String.length lines
  ∧ stdout s' =
    (stdout s ++
     filter (fun line =>
               forwarded (EatAll cnf) (EatMatches cnf)
                 (existsb (matches line) (Metrics cnf)) = true) lines)%list
  ∧ (EatAll cnf = true → stdout s' = stdout s)
  ∧ (EatAll cnf = false → EatMatches cnf = false →
     stdout s' = (stdout s ++ lines)%list).
Proof.
  assert (Hmain : totalLines s' = totalLines s + length lines
    ∧ bytesRead s' = bytesRead s + sum_list_with String.length lines
    ∧ stdout s' =
      (stdout s ++
       filter (fun line =>
                 forwarded (EatAll cnf) (EatMatches cnf)
                   (existsb (matches line) (Metrics cnf)) = true) lines)%list).
  { revert s Hrun. induction lines as [|line lines IH]; intros s Hrun.
    - injection Hrun as <-. rewrite filter_nil, app_nil_r. simpl.
      split_and!; [lia|lia|done].
    - simpl in Hrun. apply bind_Ret_inv in Hrun as ([] & s1 & H1 & H2).
      apply processLine_completed in H1 as (Ht & Hb & Ho).
      apply IH in H2 as (Ht' & Hb' & Ho').
      rewrite Ht', Hb', Ho', Ht, Hb, Ho, filter_cons. simpl.
      split_and!; [lia|lia|].
      destruct (forwarded _ _ _); simpl.
      + by rewrite <- app_assoc.
      + by rewrite app_nil_r. }
  destruct Hmain as (Ht & Hb & Ho). split_and!; try done.
  - intros Heat. rewrite Ho, Heat.
    rewrite filter_none; [by rewrite app_nil_r|]. by intros ?.
  - intros Heat Hem. rewrite Ho, Heat, Hem.
    rewrite filter_all; [done|]. intros line. simpl.
    by rewrite andb_false_r.
Qed.

(** ** Start-up on its own *)

Lemma MustRegister_completed name r s u s' :
  MustRegister name r s = (Ret u, s') →
  (name ∉ (registry s).*1)
  ∧ s' = set_registry (registry s ++ [(name, r)]) s.
Proof.
  unfold MustRegister, bind, get.
  destruct (decide (name ∈ (registry s).*1)); [done|].
  by intros [= <- <-].
Qed.

Lemma startMetric_registry basename metric s m' s' :
  startMetric basename metric s = (Ret m', s') →
  (metricName basename metric ∉ (registry s).*1)
  ∧ registry s' =
    (registry s ++ [(metricName basename metric,
                     UserCollector (length (heap s)))])%list
  ∧ length (heap s') = S (length (heap s))
  ∧ is_Some (Compile (Regex metric)).
Proof.
  unfold startMetric. destruct (Compile (Regex metric)) as [re|]; [|done].
  intros (a & s1 & Ha & (u & s2 & Hr & [= <- <-])%bind_Ret_inv)%bind_Ret_inv.
  rewrite alloc_spec in Ha. injection Ha as <- <-.
  apply MustRegister_completed in Hr as [Hfresh ->]. simpl in *.
  split_and!; [done|done| |by eexists].
  rewrite length_app. simpl. lia.
Qed.

Lemma startMetrics_registry basename metrics s ms' s' :
  startMetrics basename metrics s = (Ret ms', s') →
  registry s' =
    (registry s ++
     zip (metricName basename <$> metrics)
         (UserCollector <$> seq (length (heap s)) (length metrics)))%list
  ∧ Forall (fun m => is_Some (Compile (Regex m))) metrics
  ∧ (NoDup (registry s).*1 → NoDup (registry s').*1).
Proof.
  revert s ms' s'. induction metrics as [|m ms IH]; intros s ms' s'; simpl.
  - intros [= <- <-]. by rewrite app_nil_r.
  - intros (m1 & s1 & H1 & (ms1 & s2 & H2 & [= <- <-])%bind_Ret_inv)%bind_Ret_inv.
    apply startMetric_registry in H1 as (Hfresh & Hr1 & Hl1 & Hc1).
    apply IH in H2 as (Hr2 & Hc2 & Hnd2).
    split_and!.
    + by rewrite Hr2, Hr1, Hl1, <- app_assoc.
    + by constructor.
    + intros Hnd. apply Hnd2. rewrite Hr1, fmap_app. simpl.
      apply NoDup_app. split_and!; [done| |apply NoDup_singleton].
      intros x Hx ->%list_elem_of_singleton. done.
Qed.

(** A start-up that succeeds registers every metric under
    [basename_name], in declaration order and each with its own
    collector, then the three counters of the program under their fixed
    names; all registered names are distinct. *)
Theorem startup_registers_metrics_then_three (cnf cnf' : Data)
  (s s' : State)
  (Hstart : startup cnf s = (Ret cnf', s')) :
  registry s' =
    (registry s ++
     zip (metricName (Basename cnf) <$> Metrics cnf)
         (UserCollector <$> seq (length (heap s)) (length (Metrics cnf)))
     ++ [("stdout2prom_lines_parsed_total", TotalLines);
         ("stdout2prom_bytes_read_total", BytesRead);
         ("stdout2prom_matched_lines_total", MatchedLines)])%list
  ∧ (NoDup (registry s).*1 → NoDup (registry s').*1).
Proof.
  unfold startup in Hstart.
  apply bind_Ret_inv in Hstart as (ms & s1 & Hms & Hrest).
  apply bind_Ret_inv in Hrest as (? & s2 & H2 & Hrest).
  apply bind_Ret_inv in Hrest as (? & s3 & H3 & Hrest).
  apply bind_Ret_inv in Hrest as (? & s4 & H4 & [= <- <-]).
  apply startMetrics_registry in Hms as (Hr1 & _ & Hnd1).
  apply MustRegister_completed in H2 as [Hf2 ->].
  apply MustRegister_completed in H3 as [Hf3 ->].
  apply MustRegister_completed in H4 as [Hf4 ->].
  simpl in *. split.
  - rewrite Hr1, <- !app_assoc. done.
  - intros Hnd. specialize (Hnd1 Hnd).
    rewrite !fmap_app in *. simpl in *.
    rewrite <- !app_assoc in *. simpl in *.
    apply NoDup_app. split_and!; [done| |].
    + intros nm Hx Hin.
      apply elem_of_cons in Hin as [->|Hin]; [done|].
      apply elem_of_cons in Hin as [->|Hin].
      { apply Hf3. apply elem_of_app. by left. }
      apply list_elem_of_singleton in Hin as ->.
      apply Hf4. apply elem_of_app. by left.
    + apply NoDup_cons. split.
      * intros Hin. apply elem_of_cons in Hin as [Heq|Hin].
        { apply Hf3. rewrite Heq. apply elem_of_app. right.
          apply elem_of_cons. by left. }
        apply list_elem_of_singleton in Hin.
        apply Hf4. rewrite <- Hin. apply elem_of_app. right.
        apply elem_of_cons. by left.
      * apply NoDup_cons. split; [|apply NoDup_singleton].
        intros Hin%list_elem_of_singleton.
        apply Hf4. rewrite <- Hin. apply elem_of_app. right.
        apply elem_of_cons. right. apply elem_of_cons. by left.
Qed.

Lemma alloc_keeps {X} (f : State → X) c :
  (∀ h s, f (set_heap h s) = f s) → preserves (keeps f) (alloc c).
Proof. intros Hf s. rewrite alloc_spec. apply Hf. Qed.

Lemma MustRegister_keeps {X} (f : State → X) name r :
  (∀ g s, f (set_registry g s) = f s) →
  preserves (keeps f) (MustRegister name r).
Proof.
  intros Hf s. unfold MustRegister, bind, get.
  destruct (decide (name ∈ (registry s).*1)); [done|]. apply Hf.
Qed.

(** Start-up touches the heap and the registry only. *)
Lemma startup_keeps {X} (f : State → X) cnf :
  (∀ h s, f (set_heap h s) = f s) →
  (∀ g s, f (set_registry g s) = f s) →
  preserves (keeps f) (startup cnf).
Proof.
  intros Hh Hr.
  assert (Hm : ∀ metric, preserves (keeps f) (startMetric (Basename cnf) metric)).
  { intros metric. unfold startMetric.
    destruct (Compile (Regex metric)); [|frame].
    apply preserves_bind; [apply _|by apply alloc_keeps|intros ?].
    apply preserves_bind; [apply _|by apply MustRegister_keeps|intros ?].
    frame. }
  assert (Hms : ∀ metrics,
    preserves (keeps f) (startMetrics (Basename cnf) metrics)).
  { induction metrics as [|m ms IH]; simpl; [frame|].
    apply preserves_bind; [apply _|apply Hm|intros ?].
    apply preserves_bind; [apply _|apply IH|intros ?; frame]. }
  unfold startup.
  apply preserves_bind; [apply _|apply Hms|intros ?].
  repeat (apply preserves_bind;
          [apply _|by apply MustRegister_keeps|intros ?]).
  frame.
Qed.

Lemma startMetrics_compiles basename metrics s ms' s' :
  startMetrics basename metrics s = (Ret ms', s') →
  Forall (fun m => is_Some (Compile (Regex m))) metrics.
Proof. by intros (_ & H & _)%startMetrics_registry. Qed.

(** A pattern that does not compile aborts the process at start-up:
    [main] panics before it reads a line, whatever the input. *)
Theorem uncompilable_pattern_aborts_startup (cnf : Data)
  (lines : list string) (s : State) (metric : Metric)
  (Hin : metric ∈ Metrics cnf)
  (Hbad : Compile (Regex metric) = None) :
  succeeds (main cnf lines s).1 = false
  ∧ totalLines (main cnf lines s).2 = totalLines s
  ∧ stdout (main cnf lines s).2 = stdout s.
Proof.
  pose proof (startup_keeps totalLines cnf (fun _ _ => eq_refl)
                (fun _ _ => eq_refl) s) as Ht.
  pose proof (startup_keeps stdout cnf (fun _ _ => eq_refl)
                (fun _ _ => eq_refl) s) as Ho.
  unfold main, bind. unfold keeps in *.
  destruct (startup cnf s) as [[cnf'|p] s1] eqn:Hstart; [|done].
  exfalso. unfold startup in Hstart.
  apply bind_Ret_inv in Hstart as (ms & s2 & Hms & _).
  apply startMetrics_compiles in Hms. rewrite Forall_forall in Hms.
  destruct (Hms metric Hin) as [re Hre]. congruence.
Qed.

(** ** A line that matches nothing *)

Lemma processMetric_unmatched line mf metric s :
  is_Some (Compiled metric) → matches line metric = false →
  processMetric line mf metric s = (Ret mf, s).
Proof.
  intros [re Hre]. unfold matches, processMetric. rewrite Hre.
  intros Hm%bool_decide_eq_false.
  by destruct (decide (length (FindStringSubmatch re line) ≠ 0)).
Qed.

(** A line that no pattern matches only moves the two counters of the
    scanner loop, and is printed unless [eatAll] is set: collectors, the
    matched-lines and failure counters and the log stay as they are. *)
Theorem unmatched_line_only_counted (cnf : Data) (line : string) (s : State)
  (Hcompiled : Forall (fun m => is_Some (Compiled m)) (Metrics cnf))
  (Hnone : existsb (matches line) (Metrics cnf) = false) :
  processLine cnf line s =
  (Ret tt,
   let s0 := set_bytesRead (bytesRead s + String.length line)
               (set_totalLines (totalLines s + 1) s) in
   if EatAll cnf then s0 else set_stdout (stdout s0 ++ [line]) s0).
Proof.
  assert (Hloop : ∀ mf s0,
    processMetrics line mf (Metrics cnf) s0 = (Ret mf, s0)).
  { induction (Metrics cnf) as [|m ms IH]; intros mf s0; [done|].
    apply Forall_cons in Hcompiled as [Hc Hcs].
    simpl in Hnone. apply orb_false_elim in Hnone as [Hm Hms].
    rewrite processMetrics_cons, processMetric_unmatched by done.
    by apply IH. }
  unfold processLine, bind, totalLines_Inc, bytesRead_Add, modify, fmt_Println.
  simpl. rewrite Hloop. simpl. by destruct (EatAll cnf).
Qed.

(** ** The variant of [stdout2prom.go] *)

Lemma Counter_Inc_keeps {X} (f : State → X) c :
  (∀ h s, f (set_heap h s) = f s) → preserves (keeps f) (Counter_Inc c).
Proof.
  intros Hf s. unfold Counter_Inc, bind.
  destruct (collectorAt_spec c s) as [(a & col & -> & Ha & ->)|[p ->]];
    [|done].
  destruct col; simpl; try done. apply Hf.
Qed.

Lemma Gauge_Set_keeps {X} (f : State → X) c v :
  (∀ h s, f (set_heap h s) = f s) → preserves (keeps f) (Gauge_Set c v).
Proof.
  intros Hf s. unfold Gauge_Set, bind.
  destruct (collectorAt_spec c s) as [(a & col & -> & Ha & ->)|[p ->]];
    [|done].
  destruct col; simpl; try done. apply Hf.
Qed.

Lemma flag_onMatch_frame metric result :
  preserves lineFrame (GaugeFlag.onMatch metric result).
Proof.
  unfold GaugeFlag.onMatch, badFloats_Inc.
  destruct (GaugeFlag.Gauge_ metric); [|apply Counter_Inc_frame].
  apply preserves_bind; [apply _| |intros r].
  { apply pure_preserves; [apply _|apply elemAt_pure]. }
  destruct (ParseFloat r); [apply Gauge_Set_frame|frame].
Qed.

Lemma flag_processMetric_frame line mf metric :
  preserves lineFrame (GaugeFlag.processMetric line mf metric).
Proof.
  unfold GaugeFlag.processMetric, matchedLines_Inc.
  destruct (GaugeFlag.Compiled metric) as [re|]; [|frame].
  case_decide; [|frame].
  apply preserves_bind; [apply _|frame|intros _].
  apply preserves_bind; [apply _|apply flag_onMatch_frame|intros ?; frame].
Qed.

Lemma flag_processMetrics_frame line mf metrics :
  preserves lineFrame (GaugeFlag.processMetrics line mf metrics).
Proof.
  revert mf. induction metrics as [|m ms IH]; intros mf; simpl; [frame|].
  apply preserves_bind;
    [apply _|apply flag_processMetric_frame|intros ?; apply IH].
Qed.

Lemma flag_processLine_frame cnf line :
  preserves runFrame (GaugeFlag.processLine cnf line).
Proof.
  unfold GaugeFlag.processLine, totalLines_Inc, bytesRead_Add, fmt_Println.
  apply preserves_bind; [apply _|frame|intros _].
  apply preserves_bind; [apply _|frame|intros _].
  apply preserves_bind; [apply _| |intros ?; frame].
  eapply preserves_weaken; [apply lineFrame_runFrame|].
  apply flag_processMetrics_frame.
Qed.

Lemma flag_scanLoop_frame cnf lines :
  preserves runFrame (GaugeFlag.scanLoop cnf lines).
Proof.
  induction lines as [|line lines IH]; simpl; [frame|].
  apply preserves_bind;
    [apply _|apply flag_processLine_frame|intros _; apply IH].
Qed.

(** In this variant a gauge reads its value from the first submatch: a
    gauge whose pattern has no group panics with an index out of range
    on the first line the pattern matches, after counting the match. *)
Theorem flag_gauge_without_group_aborts (line : string) (mf : bool)
  (metric : GaugeFlag.Metric) (s : State) (re : Regexp)
  (Hgauge : GaugeFlag.Gauge_ metric = true)
  (Hre : GaugeFlag.Compiled metric = Some re)
  (Hone : length (FindStringSubmatch re line) = 1) :
  GaugeFlag.processMetric line mf metric s
  = (Panic (IndexOutOfRange 1 1), set_matchedLines (matchedLines s + 1) s).
Proof.
  unfold GaugeFlag.processMetric. rewrite Hre.
  destruct (decide (FindStringSubmatch re line ≠ [])) as [_|Hnil].
  - unfold bind, matchedLines_Inc, modify, GaugeFlag.onMatch.
    rewrite Hgauge. unfold bind, elemAt. simpl.
    rewrite (lookup_ge_None_2 _ 1) by lia. by rewrite Hone.
  - destruct (FindStringSubmatch re line); [done|]. by destruct Hnil.
Qed.

(** A gauge of this variant on a matching line with a first submatch:
    the match is counted; when the submatch parses the gauge is set to
    it and no failure is counted, otherwise one failure is counted and
    every collector is left as it was.  The loop body completes either
    way. *)
Theorem flag_gauge_first_submatch (line : string) (mf : bool)
  (metric : GaugeFlag.Metric) (s : State) (re : Regexp) (r : string)
  (a : nat) (old : float64)
  (Hgauge : GaugeFlag.Gauge_ metric = true)
  (Hre : GaugeFlag.Compiled metric = Some re)
  (Hsub : FindStringSubmatch re line !! 1 = Some r)
  (Haddr : GaugeFlag.Collector_ metric = Some a)
  (Hcell : heap s !! a = Some (Gauge old)) :
  ∃ s1, GaugeFlag.processMetric line mf metric s = (Ret true, s1)
    ∧ matchedLines s1 = matchedLines s + 1
    ∧ match ParseFloat r with
      | Some v => heap s1 = <[a := Gauge v]> (heap s)
                  ∧ badFloats s1 = badFloats s
      | None => heap s1 = heap s ∧ badFloats s1 = badFloats s + 1
      end.
Proof.
  unfold GaugeFlag.processMetric. rewrite Hre.
  destruct (decide (FindStringSubmatch re line ≠ [])) as [_|Hnil].
  2:{ destruct Hnil. intros Hnil. by rewrite Hnil in Hsub. }
  unfold bind, matchedLines_Inc, modify, GaugeFlag.onMatch.
  rewrite Hgauge. unfold bind.
  rewrite (elemAt_in_range _ 1 r _ Hsub).
  destruct (ParseFloat r) as [v|]; simpl.
  - unfold Gauge_Set, bind, collectorAt, get. rewrite Haddr. simpl.
    unfold bind. simpl. rewrite Hcell. simpl. by eexists.
  - by eexists.
Qed.

Lemma flag_onMatch_ready_succeeds metric result s :
  flagReady metric s →
  (GaugeFlag.Gauge_ metric = true → (2 ≤ length result)%nat) →
  succeeds (GaugeFlag.onMatch metric result s).1 = true.
Proof.
  intros (re & a & c & Hre & Ha & Hc & Hshape) Hlen.
  unfold GaugeFlag.onMatch, GaugeFlag.newCollector in *.
  destruct (GaugeFlag.Gauge_ metric).
  - destruct (lookup_lt_is_Some_2 result 1) as [r Hr]; [by apply Hlen|].
    unfold bind. rewrite (elemAt_in_range _ 1 r _ Hr).
    destruct (ParseFloat r) as [v|]; [|done].
    unfold Gauge_Set, bind, collectorAt, get. rewrite Ha. simpl.
    unfold bind. simpl. rewrite Hc. by destruct c.
  - unfold Counter_Inc, bind, collectorAt, get. rewrite Ha. simpl.
    unfold bind. simpl. rewrite Hc. by destruct c.
Qed.

Lemma flagReady_shapes metric s s' :
  shape <$> heap s' = shape <$> heap s →
  flagReady metric s → flagReady metric s'.
Proof.
  intros Hk (re & a & c & Hre & Ha & Hc & Hkc).
  assert (Hl : (shape <$> heap s') !! a = Some (shape c)).
  { by rewrite Hk, list_lookup_fmap, Hc. }
  rewrite list_lookup_fmap in Hl. apply fmap_Some in Hl as (c' & Hc' & Hkc').
  exists re, a, c'. split_and!; try done. congruence.
Qed.

Lemma flag_processMetric_ready_succeeds line mf metric s :
  regular → flagConsistent metric → flagReady metric s →
  succeeds (GaugeFlag.processMetric line mf metric s).1 = true.
Proof.
  intros Hreg Hcons Hready.
  pose proof Hready as (re & a & c & Hre & Ha & Hc & Hshape).
  unfold GaugeFlag.processMetric. rewrite Hre.
  destruct (decide (FindStringSubmatch re line ≠ [])) as [Hm|_]; [|done].
  unfold bind at 1, matchedLines_Inc, modify. unfold bind.
  match goal with |- context [GaugeFlag.onMatch metric ?res ?s0] =>
    pose proof (flag_onMatch_ready_succeeds metric res s0) as Hs;
    destruct (GaugeFlag.onMatch metric res s0) as [[[]|p] s1]
  end; [done|].
  apply Hs.
  - by apply (flagReady_shapes metric s).
  - intros Hg. destruct (Hreg re line) as [Hnil|Heq]; [done|].
    rewrite Heq. by apply Hcons.
Qed.

Lemma flag_processMetrics_ready_succeeds line mf metrics s :
  regular →
  Forall flagConsistent metrics →
  Forall (fun m => flagReady m s) metrics →
  succeeds (GaugeFlag.processMetrics line mf metrics s).1 = true.
Proof.
  intros Hreg. revert mf s.
  induction metrics as [|m ms IH]; intros mf s Hcons Hready; [done|].
  apply Forall_cons in Hcons as [Hc Hcons].
  apply Forall_cons in Hready as [Hr Hready].
  simpl. unfold bind.
  pose proof (flag_processMetric_ready_succeeds line mf m s Hreg Hc Hr) as Hs.
  pose proof (flag_processMetric_frame line mf m s) as [_ Hk _ _ _].
  destruct (GaugeFlag.processMetric line mf m s) as [[mf'|p] s1]; [|done].
  apply IH; [done|]. eapply Forall_impl; [exact Hready|].
  intros m' Hm'. exact (flagReady_shapes m' s s1 Hk Hm').
Qed.

Lemma flag_scanLoop_ready_succeeds cnf lines s :
  regular →
  Forall flagConsistent (GaugeFlag.Metrics cnf) →
  Forall (fun m => flagReady m s) (GaugeFlag.Metrics cnf) →
  succeeds (GaugeFlag.scanLoop cnf lines s).1 = true.
Proof.
  intros Hreg Hcons. revert s.
  induction lines as [|line lines IH]; intros s Hready; [done|].
  simpl. unfold bind.
  pose proof (flag_processLine_frame cnf line s) as [_ Hk].
  assert (Hs : succeeds (GaugeFlag.processLine cnf line s).1 = true).
  { unfold GaugeFlag.processLine, bind, totalLines_Inc, bytesRead_Add, modify.
    simpl.
    match goal with |- context [GaugeFlag.processMetrics line false ?ms ?s0] =>
      pose proof (flag_processMetrics_ready_succeeds line false ms s0
                    Hreg Hcons) as Hs;
      destruct (GaugeFlag.processMetrics line false ms s0) as [[b|p] s1]
    end.
    - by destruct (forwarded _ _ _).
    - apply Hs. eapply Forall_impl; [exact Hready|].
      intros m Hm. exact (flagReady_shapes m s _ eq_refl Hm). }
  destruct (GaugeFlag.processLine cnf line s) as [[[]|p] s1]; [|done].
  apply IH. eapply Forall_impl; [exact Hready|].
  intros m Hm. exact (flagReady_shapes m s s1 Hk Hm).
Qed.

Lemma flag_startMetric_completed basename metric s m' s' :
  GaugeFlag.startMetric basename metric s = (Ret m', s') →
  heap s' = (heap s ++ [GaugeFlag.newCollector metric])%list
  ∧ flagReady m' s'.
Proof.
  unfold GaugeFlag.startMetric.
  intros (a & s1 & Ha & (u & s2 & Hr & Hrest)%bind_Ret_inv)%bind_Ret_inv.
  rewrite alloc_spec in Ha. injection Ha as <- <-.
  apply MustRegister_completed in Hr as [_ ->].
  destruct (Compile (GaugeFlag.Regex metric)) as [re|]; [|done].
  injection Hrest as <- <-. simpl. split; [done|].
  exists re, (length (heap s)), (GaugeFlag.newCollector metric).
  split_and!; try done. by apply list_lookup_middle.
Qed.

Lemma flagReady_extend metric s s' ext :
  heap s' = (heap s ++ ext)%list → flagReady metric s → flagReady metric s'.
Proof.
  intros Hh (re & a & c & Hre & Ha & Hc & Hk).
  exists re, a, c. split_and!; try done.
  rewrite Hh. by apply lookup_app_l_Some.
Qed.

Lemma flag_startMetrics_completed basename metrics s ms' s' :
  GaugeFlag.startMetrics basename metrics s = (Ret ms', s') →
  heap s' = (heap s ++ (GaugeFlag.newCollector <$> metrics))%list
  ∧ Forall (fun m => flagReady m s') ms'.
Proof.
  revert s ms' s'. induction metrics as [|m ms IH]; intros s ms' s'; simpl.
  - intros [= <- <-]. by rewrite app_nil_r.
  - intros (m1 & s1 & H1 & (ms1 & s2 & H2 & [= <- <-])%bind_Ret_inv)%bind_Ret_inv.
    apply flag_startMetric_completed in H1 as [Hh1 Hr1].
    apply IH in H2 as [Hh2 Hr2]. split.
    + by rewrite Hh2, Hh1, <- app_assoc.
    + constructor; [by eapply flagReady_extend|done].
Qed.

Lemma flag_startup_ready cnf s cnf' s' :
  GaugeFlag.startup cnf s = (Ret cnf', s') →
  heap s' = (heap s ++ (GaugeFlag.newCollector <$> GaugeFlag.Metrics cnf))%list
  ∧ Forall (fun m => flagReady m s') (GaugeFlag.Metrics cnf').
Proof.
  unfold GaugeFlag.startup. intros Hstart.
  apply bind_Ret_inv in Hstart as (ms & s1 & Hms & Hrest).
  apply bind_Ret_inv in Hrest as (? & s2 & H2 & Hrest).
  apply bind_Ret_inv in Hrest as (? & s3 & H3 & Hrest).
  apply bind_Ret_inv in Hrest as (? & s4 & H4 & [= <- <-]).
  apply flag_startMetrics_completed in Hms as [Hh Hms].
  apply MustRegister_completed in H2 as [_ ->].
  apply MustRegister_completed in H3 as [_ ->].
  apply MustRegister_completed in H4 as [_ ->].
  simpl. split; [done|].
  eapply Forall_impl; [exact Hms|]. intros m Hm.
  exact (flagReady_shapes m s1 _ eq_refl Hm).
Qed.

(** This variant never panics after a start-up that succeeds, whatever
    the input lines, when the engine returns one submatch per group and
    the pattern of every gauge has at least one group; and then every
    metric has its own collector, a gauge or a counter as its flag says. *)
Theorem flag_configuration_with_groups_never_panics
  (cnf cnf' : GaugeFlag.Data) (s s' : State) (lines : list string)
  (Hreg : regular)
  (Hstart : GaugeFlag.startup cnf s = (Ret cnf', s'))
  (Hcons : Forall flagConsistent (GaugeFlag.Metrics cnf')) :
  heap s' = (heap s ++ (GaugeFlag.newCollector <$> GaugeFlag.Metrics cnf))%list
  ∧ succeeds (GaugeFlag.scanLoop cnf' lines s').1 = true
  ∧ succeeds (GaugeFlag.main cnf lines s).1 = true.
Proof.
  destruct (flag_startup_ready _ _ _ _ Hstart) as [Hh Hready].
  assert (Hs : succeeds (GaugeFlag.scanLoop cnf' lines s').1 = true)
    by (by apply flag_scanLoop_ready_succeeds).
  split_and!; [done|done|].
  unfold GaugeFlag.main, bind. by rewrite Hstart.
Qed.

Lemma flag_startup_noBadFloats cnf :
  preserves noBadFloats (GaugeFlag.startup cnf).
Proof.
  assert (Hm : ∀ metric,
    preserves noBadFloats (GaugeFlag.startMetric (GaugeFlag.Basename cnf) metric)).
  { intros metric. unfold GaugeFlag.startMetric.
    apply preserves_bind; [apply _| |intros a].
    { intros s. rewrite alloc_spec. by intros ?. }
    apply preserves_bind;
      [apply _|by apply MustRegister_noBadFloats|intros ?].
    destruct (Compile (GaugeFlag.Regex metric)); frame. }
  assert (Hms : ∀ metrics,
    preserves noBadFloats
      (GaugeFlag.startMetrics (GaugeFlag.Basename cnf) metrics)).
  { induction metrics as [|m ms IH]; simpl; [frame|].
    apply preserves_bind; [apply _|apply Hm|intros ?].
    apply preserves_bind; [apply _|apply IH|intros ?; frame]. }
  unfold GaugeFlag.startup.
  apply preserves_bind; [apply _|apply Hms|intros ?].
  repeat (apply preserves_bind;
          [apply _|by apply MustRegister_noBadFloats|intros ?]).
  frame.
Qed.

(** This variant counts parse failures in [badFloats] but, like the
    later one, never registers that counter, whatever the configuration
    and the input. *)
Theorem flag_badFloats_never_registered (cnf : GaugeFlag.Data)
  (lines : list string) :
  BadFloats ∉ (registry (GaugeFlag.main cnf lines initState).2).*2.
Proof.
  assert (Hmain : preserves noBadFloats (GaugeFlag.main cnf lines)).
  { unfold GaugeFlag.main.
    apply preserves_bind; [apply _|apply flag_startup_noBadFloats|intros cnf'].
    eapply preserves_weaken;
      [apply runFrame_noBadFloats|apply flag_scanLoop_frame]. }
  apply Hmain. simpl. apply not_elem_of_nil.
Qed.

Lemma flag_onMatch_keeps_matchedLines metric result :
  preserves (keeps matchedLines) (GaugeFlag.onMatch metric result).
Proof.
  unfold GaugeFlag.onMatch, badFloats_Inc.
  destruct (GaugeFlag.Gauge_ metric); [|by apply Counter_Inc_keeps].
  apply preserves_bind; [apply _| |intros r].
  { apply pure_preserves; [apply _|apply elemAt_pure]. }
  destruct (ParseFloat r); [by apply Gauge_Set_keeps|frame].
Qed.

Lemma flag_processMetric_completed line mf metric s b s' :
  GaugeFlag.processMetric line mf metric s = (Ret b, s') →
  b = mf || flagMatches line metric
  ∧ matchedLines s' = matchedLines s + (if flagMatches line metric then 1 else 0).
Proof.
  unfold GaugeFlag.processMetric, flagMatches.
  destruct (GaugeFlag.Compiled metric) as [re|]; [|done].
  destruct (decide (FindStringSubmatch re line ≠ [])) as [Hm|Hm].
  - rewrite bool_decide_eq_true_2 by exact Hm.
    intros (? & s1 & [= <-] & (? & s2 & Hon & [= <- <-])%bind_Ret_inv)%bind_Ret_inv.
    apply (preserves_run _ _ _ _ _ (flag_onMatch_keeps_matchedLines _ _)) in Hon.
    unfold keeps in Hon. subst s1. rewrite Hon, orb_true_r. by split.
  - rewrite bool_decide_eq_false_2 by exact Hm.
    intros [= <- <-]. rewrite orb_false_r. split; [done|lia].
Qed.

Lemma flag_processMetrics_completed line mf metrics s b s' :
  GaugeFlag.processMetrics line mf metrics s = (Ret b, s') →
  b = mf || existsb (flagMatches line) metrics
  ∧ matchedLines s' =
    matchedLines s
    + sum_list_with (fun m => if flagMatches line m then 1 else 0) metrics.
Proof.
  revert mf s. induction metrics as [|m ms IH]; intros mf s; simpl.
  - intros [= <- <-]. rewrite orb_false_r. split; [done|lia].
  - intros (b1 & s1 & H1 & H2)%bind_Ret_inv.
    apply flag_processMetric_completed in H1 as [-> Hm1].
    apply IH in H2 as [-> Hm2]. rewrite orb_assoc. split; [done|lia].
Qed.

(** A line this variant processes to completion is counted once, with
    its bytes; the matched-lines counter grows by the number of metrics
    whose pattern matches it (not by one); and the line is printed
    exactly when the pass-through policy forwards it. *)
Theorem flag_processLine_completed (cnf : GaugeFlag.Data) (line : string)
  (s s' : State)
  (Hrun : GaugeFlag.processLine cnf line s = (Ret tt, s')) :
  totalLines s' = totalLines s + 1
  ∧ bytesRead s' = bytesRead s + String.length line
  ∧ matchedLines s' =
    matchedLines s
    + sum_list_with (fun m => if flagMatches line m then 1 else 0)
        (GaugeFlag.Metrics cnf)
  ∧ stdout s' =
    (stdout s ++
     if forwarded (GaugeFlag.EatAll cnf) (GaugeFlag.EatMatches cnf)
          (existsb (flagMatches line) (GaugeFlag.Metrics cnf))
     then [line] else [])%list.
Proof.
  revert Hrun.
  unfold GaugeFlag.processLine, bind, totalLines_Inc, bytesRead_Add, modify,
    fmt_Println. simpl.
  match goal with |- context [GaugeFlag.processMetrics line false ?ms ?s0] =>
    pose proof (flag_processMetrics_frame line false ms s0) as [_ _ Ht Hb Ho];
    pose proof (flag_processMetrics_completed line false ms s0) as Hc;
    destruct (GaugeFlag.processMetrics line false ms s0) as [[b|p] s1]
  end; simpl in *; [|done].
  destruct (Hc b s1 eq_refl) as [-> Hm]. simpl in *.
  destruct (forwarded _ _ _); intros [= <-]; simpl;
    rewrite Ht, Hb, Ho, Hm; split_and!; try done.
  by rewrite app_nil_r.
Qed.

(** ** Names the pattern does not declare *)

(** A value name that is not a group name of the pattern makes the loop
    body panic on every line the pattern matches: the submatches are
    indexed at -1 right after the match is counted. *)
Theorem missing_value_group_always_aborts (line : string) (mf : bool)
  (metric : Metric) (s : State) (re : Regexp)
  (Hre : Compiled metric = Some re)
  (Hmatch : length (FindStringSubmatch re line) ≠ 0)
  (Hval : Value metric ≠ EmptyString)
  (Hmissing : Value metric ∉ GroupName metric) :
  processMetric line mf metric s
  = (Panic (IndexOutOfRange (-1) (length (FindStringSubmatch re line))),
     set_matchedLines (matchedLines s + 1) s).
Proof.
  assert (Hidx : indexOf (Value metric) (GroupName metric) = (-1)%Z).
  { unfold indexOf.
    destruct (indexOf_from_spec 0 (Value metric) (GroupName metric))
      as [[Hm _]|(i & _ & Hat & _)]; [done|].
    destruct Hmissing. by eapply list_elem_of_lookup_2. }
  unfold processMetric. rewrite Hre.
  destruct (decide (length (FindStringSubmatch re line) ≠ 0)); [|done].
  unfold onMatch, extractValue.
  destruct (decide (Value metric ≠ EmptyString)); [|done].
  unfold bind, matchedLines_Inc, modify.
  by rewrite (getValue_missing_group _ _ _ _ Hidx).
Qed.

(** A label name that is not a group name of the pattern, on a labelled
    counter: on every line the pattern matches, the diagnostic is logged
    and the update is then attempted with the nil mapping, which panics;
    the collector is not updated. *)
Theorem missing_label_always_aborts (line : string) (mf : bool)
  (metric : Metric) (s : State) (re : Regexp) (n : string) (a : nat)
  (series : gmap (list string) nat)
  (Hre : Compiled metric = Some re)
  (Hmatch : length (FindStringSubmatch re line) ≠ 0)
  (Hcounter : Value metric = EmptyString)
  (Hlen : (length (GroupName metric)
           ≤ length (FindStringSubmatch re line))%nat)
  (Hin : n ∈ Labels metric)
  (Hmissing : n ∉ GroupName metric)
  (Haddr : Collector_ metric = Some a)
  (Hcell : heap s !! a = Some (CounterVec (Labels metric) series)) :
  ∃ s1, processMetric line mf metric s = (Panic InconsistentCardinality, s1)
    ∧ logged s1 = (logged s ++ ["problems finding labels"])%list
    ∧ heap s1 = heap s
    ∧ matchedLines s1 = matchedLines s + 1.
Proof.
  assert (Hlab : 0 < length (Labels metric)).
  { destruct (Labels metric); [by apply elem_of_nil in Hin|simpl; lia]. }
  unfold processMetric. rewrite Hre.
  destruct (decide (length (FindStringSubmatch re line) ≠ 0)); [|done].
  unfold onMatch, extractValue, extractLabels.
  destruct (decide (Value metric ≠ EmptyString)); [done|].
  destruct (decide (0 < length (Labels metric))); [|done].
  unfold bind, matchedLines_Inc, modify, ret, getLabels.
  rewrite (getLabels_loop_missing _ _ _ _ _ n Hlen Hin Hmissing). simpl.
  rewrite update_spec, Haddr. simpl. rewrite Hcell.
  unfold updateCell, labelValues.
  destruct (decide (Value metric = EmptyString)); [|done].
  destruct (decide (0 < length (Labels metric))); [|done].
  rewrite map_size_empty.
  destruct (decide (0 = length (Labels metric))); [lia|].
  eexists. split; [reflexivity|]. done.
Qed.

End Properties.






(** * Concrete runs *)

Section Runs.
Import Toy.

(** C1 (what the code does): one line matched by two specifications
    adds 2 to the matched-lines counter, while one line was read. *)
Theorem matchedLines_counts_matching_specifications :
  let r := main twoCounters ["output packet 42"] initState in
  r.1 = Ret tt ∧ totalLines r.2 = 1 ∧ matchedLines r.2 = 2
  ∧ heap r.2 = [Counter 1; Counter 1].
Proof. vm_compute. done. Qed.

(** C2 (what the code does): a specification whose value group name is
    absent from the pattern's group names makes the first matching line
    abort the process with an index out of range; no extraction failure
    is counted, the next specification is not tested and the next line is
    not read. *)
Theorem missing_value_group_aborts :
  let r := main missingValue ["200 15"; "404 7"] initState in
  r.1 = Panic (IndexOutOfRange (-1) 3)
  ∧ badFloats r.2 = 0 ∧ matchedLines r.2 = 1 ∧ totalLines r.2 = 1
  ∧ heap r.2 = [@Gauge externals 0%Z; Counter 0] ∧ stdout r.2 = [].
Proof. vm_compute. done. Qed.

(** C3 (what the code does): a declared label name absent from the
    pattern's group names is reported on the log, and the update is then
    attempted with no labels, which aborts the process. *)
Theorem missing_label_group_aborts :
  let r := main missingLabel ["200 15"; "404 7"] initState in
  r.1 = Panic InconsistentCardinality
  ∧ logged r.2 = ["problems finding labels"]
  ∧ heap r.2 = [CounterVec ["status"] ∅]
  ∧ totalLines r.2 = 1 ∧ stdout r.2 = [].
Proof. vm_compute. done. Qed.

(** The started configurations are what start-up computes. *)
Lemma started_twoCounters :
  startup twoCounters initState
  = (Ret (started twoCounters).1, (started twoCounters).2)
  ∧ Metrics (started twoCounters).1 = [packetsOutStarted; packetsStarted].
Proof. split; vm_compute; reflexivity. Qed.

Lemma started_readme :
  startup readme initState = (Ret (started readme).1, (started readme).2)
  ∧ head (Metrics (started readme).1) = Some postStarted.
Proof. split; vm_compute; reflexivity. Qed.

Lemma parse_failure_skips_update_witness :
  (Compiled postStarted = Some (Fields ["returncode"; "response"])
   ∧ length (findStringSubmatch (Fields ["returncode"; "response"]) "200 abc")
     ≠ 0
   ∧ Value postStarted ≠ EmptyString
   ∧ indexOf (Value postStarted) (GroupName postStarted) = Z.of_nat 2
   ∧ findStringSubmatch (Fields ["returncode"; "response"]) "200 abc" !! 2
     = Some "abc"
   ∧ parseFloat "abc" = None)
  ∧ ∃ s1, processMetric "200 abc" false postStarted (started readme).2
          = (Ret true, s1)
      ∧ badFloats s1 = badFloats (started readme).2 + 1
      ∧ matchedLines s1 = matchedLines (started readme).2 + 1
      ∧ heap s1 = heap (started readme).2
      ∧ processMetrics "200 abc" false [postStarted] (started readme).2
        = processMetrics "200 abc" true [] s1.
Proof.
  assert (H2 : length (findStringSubmatch (Fields ["returncode"; "response"])
                         "200 abc") ≠ 0) by (vm_compute; lia).
  assert (H3 : Value postStarted ≠ EmptyString) by (vm_compute; discriminate).
  split; [split_and!; first [exact H2|exact H3|reflexivity]|].
  exact (parse_failure_skips_update (E:=externals) "200 abc" false postStarted
           [] (started readme).2 (Fields ["returncode"; "response"]) 2 "abc"
           eq_refl H2 H3 eq_refl eq_refl eq_refl).
Defined.

Lemma collector_shape_chosen_once_witness :
  startup readme initState = (Ret (started readme).1, (started readme).2)
  ∧ heap (started readme).2
    = (heap (initState (E:=externals)) ++ (newCollector <$> Metrics readme))%list
  ∧ ∀ lines : list string,
      shape <$> heap (scanLoop (started readme).1 lines (started readme).2).2
      = shape <$> heap (started readme).2.
Proof.
  assert (H : startup readme initState
              = (Ret (started readme).1, (started readme).2))
    by (vm_compute; reflexivity).
  split; [exact H|].
  destruct (collector_shape_chosen_once (E:=externals) readme
              (started readme).1 initState (started readme).2 H)
    as (Hheap & _ & _ & Hshape).
  split; [exact Hheap|exact Hshape].
Defined.


Lemma counter_only_incremented_witness :
  let s := (started twoCounters).2 in
  let metrics := [packetsOutStarted; packetsStarted] in
  let r1 := processMetrics "output packet 42" false metrics s in
  let r2 := processMetrics "output packet 42" false metrics r1.2 in
  (NoDup (addresses metrics) ∧ packetsOutStarted ∈ metrics
   ∧ Value packetsOutStarted = EmptyString
   ∧ Collector_ packetsOutStarted = Some 0
   ∧ heap s !! 0 = Some (Counter 0))
  ∧ heap r1.2 !! 0 = Some (Counter 1)
  ∧ heap r2.2 !! 0 = Some (Counter 2).
Proof.
  intros s metrics r1 r2.
  assert (H1 : NoDup (addresses metrics)).
  { apply NoDup_cons. split; [|apply NoDup_singleton].
    intros Hin%list_elem_of_singleton. discriminate Hin. }
  assert (H2 : packetsOutStarted ∈ metrics) by (apply elem_of_cons; by left).
  assert (H5 : heap s !! 0 = Some (Counter 0)) by reflexivity.
  split; [split_and!; [exact H1|exact H2|reflexivity|reflexivity|exact H5]|].
  destruct (counter_only_incremented (E:=externals) "output packet 42"
              false false metrics packetsOutStarted 0 (Counter 0) s
              H1 H2 eq_refl eq_refl H5 (or_introl eq_refl))
    as (_ & Honce & Htwice).
  split; [exact (Honce eq_refl)|exact (Htwice eq_refl eq_refl eq_refl)].
Defined.

(** The small engine returns nil or one submatch per group. *)
Lemma toy_regular : regular (E:=externals).
Proof.
  intros re line. destruct re as [p|names]; simpl.
  - destruct (String.index 0 p line); [by right|by left].
  - destruct (decide (length (fields line) = length names)) as [Heq|_];
      [right|by left].
    simpl. by rewrite Heq.
Qed.

Lemma started_metrics :
  Metrics (started readme).1 = [postStarted; packetsOutSecond]
  ∧ Metrics (started gaugeOnly).1 = [respStarted]
  ∧ GaugeFlag.Metrics (flagStarted flagConfig).1
    = [flagCodeStarted; flagPacketsStarted].
Proof. split_and!; vm_compute; reflexivity. Qed.

Lemma getValue_named_group_witness :
  ((length [EmptyString; "returncode"; "response"]
    ≤ length ["200 15"; "200"; "15"])%nat
   ∧ "response" ∈ [EmptyString; "returncode"; "response"])
  ∧ ∃ (i : nat) r,
      indexOf "response" [EmptyString; "returncode"; "response"] = Z.of_nat i
      ∧ ["200 15"; "200"; "15"] !! i = Some r
      ∧ getValue (E:=externals) "response"
          [EmptyString; "returncode"; "response"] ["200 15"; "200"; "15"]
          initState
        = (Ret match parseFloat r with
               | Some v => (v, None)
               | None => (0%Z, Some ErrParseFloat)
               end, initState).
Proof.
  assert (H1 : (length [EmptyString; "returncode"; "response"]
                ≤ length ["200 15"; "200"; "15"])%nat) by (simpl; lia).
  assert (H2 : "response" ∈ [EmptyString; "returncode"; "response"])
    by set_solver.
  split; [by split|].
  exact (getValue_named_group (E:=externals) "response"
           [EmptyString; "returncode"; "response"] ["200 15"; "200"; "15"]
           initState H1 H2).
Defined.

Lemma getLabels_all_found_witness :
  ((length [EmptyString; "returncode"; "response"]
    ≤ length ["200 15"; "200"; "15"])%nat
   ∧ Forall (fun n => n ∈ [EmptyString; "returncode"; "response"])
       ["returncode"])
  ∧ ∃ l, getLabels (E:=externals) ["returncode"]
           [EmptyString; "returncode"; "response"] ["200 15"; "200"; "15"]
           initState = (Ret (l, None), initState)
         ∧ l !! "returncode" = Some "200".
Proof.
  assert (H1 : (length [EmptyString; "returncode"; "response"]
                ≤ length ["200 15"; "200"; "15"])%nat) by (simpl; lia).
  assert (H2 : Forall (fun n => n ∈ [EmptyString; "returncode"; "response"])
                 ["returncode"]).
  { constructor; [set_solver|constructor]. }
  split; [by split|].
  destruct (getLabels_all_found (E:=externals) ["returncode"]
              [EmptyString; "returncode"; "response"]
              ["200 15"; "200"; "15"] initState H1 H2)
    as (l & Hrun & Hfound & _).
  exists l. split; [exact Hrun|].
  destruct (Hfound "returncode") as (i & r & Hi & Hr & Hl); [set_solver|].
  rewrite Hl.
  change (indexOf "returncode" [EmptyString; "returncode"; "response"])
    with 1%Z in Hi.
  assert (i = 1) as -> by lia. symmetry. exact Hr.
Defined.

Lemma getLabels_missing_name_witness :
  ((length [EmptyString; "returncode"; "response"]
    ≤ length ["200 15"; "200"; "15"])%nat
   ∧ "status" ∈ ["returncode"; "status"]
   ∧ "status" ∉ [EmptyString; "returncode"; "response"])
  ∧ getLabels (E:=externals) ["returncode"; "status"]
      [EmptyString; "returncode"; "response"] ["200 15"; "200"; "15"]
      initState
    = (Ret (∅, Some ErrLabelNotFound), initState).
Proof.
  assert (H1 : (length [EmptyString; "returncode"; "response"]
                ≤ length ["200 15"; "200"; "15"])%nat) by (simpl; lia).
  assert (H2 : "status" ∈ ["returncode"; "status"]) by set_solver.
  assert (H3 : "status" ∉ [EmptyString; "returncode"; "response"]).
  { intros Hin. repeat (apply elem_of_cons in Hin as [Heq|Hin];
                        [discriminate Heq|]).
    by apply elem_of_nil in Hin. }
  split; [by split_and!|].
  exact (getLabels_missing_name (E:=externals) ["returncode"; "status"]
           [EmptyString; "returncode"; "response"] ["200 15"; "200"; "15"]
           initState "status" H1 H2 H3).
Defined.

Lemma gauge_takes_parsed_value_witness :
  let s := (started gaugeOnly).2 in
  (Compiled respStarted = Some (Fields ["returncode"; "response"])
   ∧ Value respStarted ≠ EmptyString
   ∧ Labels respStarted = []
   ∧ heap s !! 0 = Some (@Gauge externals 0%Z))
  ∧ ∃ s1, processMetric "200 15" false respStarted s = (Ret true, s1)
      ∧ heap s1 = [@Gauge externals 15%Z]
      ∧ ∃ s2, processMetric "200 15" true respStarted s1 = (Ret true, s2)
              ∧ heap s2 = heap s1.
Proof.
  intros s.
  assert (H2 : length (findStringSubmatch (Fields ["returncode"; "response"])
                         "200 15") ≠ 0) by (vm_compute; lia).
  assert (H3 : Value respStarted ≠ EmptyString) by (vm_compute; discriminate).
  assert (H9 : heap s !! 0 = Some (@Gauge externals 0%Z)) by reflexivity.
  split; [by split_and!|].
  destruct (gauge_takes_parsed_value (E:=externals) "200 15" false true
              respStarted s (Fields ["returncode"; "response"]) 2 "15"
              15%Z 0%Z 0 eq_refl H2 H3 eq_refl eq_refl eq_refl eq_refl
              eq_refl H9)
    as (s1 & Hrun & Hheap & _ & _ & Hagain).
  exists s1. split_and!; [exact Hrun|exact Hheap|exact Hagain].
Defined.

Lemma gaugeVec_sets_selected_series_witness :
  let s := (started readme).2 in
  (heap s !! 0 = Some (@GaugeVec externals ["returncode"] ∅)
   ∧ Forall (fun n => n ∈ GroupName postStarted) (Labels postStarted)
   ∧ NoDup (Labels postStarted))
  ∧ ∃ s1, processMetric "200 15" false postStarted s = (Ret true, s1)
      ∧ heap s1 !! 0
        = Some (@GaugeVec externals ["returncode"] {[ ["200"] := 15%Z ]}).
Proof.
  intros s.
  assert (H2 : length (findStringSubmatch (Fields ["returncode"; "response"])
                         "200 15") ≠ 0) by (vm_compute; lia).
  assert (H3 : Value postStarted ≠ EmptyString) by (vm_compute; discriminate).
  assert (H4 : 0 < length (Labels postStarted)) by (simpl; lia).
  assert (H5 : (length (GroupName postStarted)
                ≤ length (findStringSubmatch
                            (Fields ["returncode"; "response"]) "200 15"))%nat)
    by (vm_compute; lia).
  assert (H6 : Forall (fun n => n ∈ GroupName postStarted)
                 (Labels postStarted)).
  { constructor; [|constructor]. simpl. set_solver. }
  assert (H7 : NoDup (Labels postStarted)) by apply NoDup_singleton.
  assert (H9 : heap s !! 0 = Some (@GaugeVec externals ["returncode"] ∅))
    by reflexivity.
  split; [by split_and!|].
  destruct (gaugeVec_sets_selected_series (E:=externals) "200 15" false
              postStarted s (Fields ["returncode"; "response"]) 2 "15"
              15%Z 0 ∅ eq_refl H2 H3 H4 H5 H6 H7 eq_refl eq_refl eq_refl
              eq_refl H9)
    as (key & s1 & Hkey & Hrun & Hheap & _).
  exists s1. split; [exact Hrun|].
  rewrite Hheap.
  apply Forall2_cons_inv_l in Hkey as (x & rest & (i & Hi & Hx) & Hrest & ->).
  apply Forall2_nil_inv_l in Hrest as ->.
  change (indexOf "returncode" (GroupName postStarted)) with 1%Z in Hi.
  assert (i = 1) as -> by lia.
  injection Hx as <-. reflexivity.
Defined.

Lemma consistent_configuration_never_panics_witness :
  (regular (E:=externals)
   ∧ startup readme initState = (Ret (started readme).1, (started readme).2)
   ∧ Forall consistent (Metrics (started readme).1))
  ∧ succeeds
      (main readme ["200 15"; "an output packet"; "200 abc"; "x"] initState).1
    = true.
Proof.
  assert (H2 : startup readme initState
               = (Ret (started readme).1, (started readme).2))
    by (vm_compute; reflexivity).
  assert (H3 : Forall consistent (Metrics (started readme).1)).
  { destruct started_metrics as (-> & _).
    constructor; [|constructor; [|constructor]].
    - split_and!; [right; simpl; set_solver| |apply NoDup_singleton].
      constructor; [simpl; set_solver|constructor].
    - split_and!; [by left|constructor|apply NoDup_nil_2]. }
  split; [split_and!; [exact toy_regular|exact H2|exact H3]|].
  exact (proj2 (consistent_configuration_never_panics (E:=externals) readme
                  (started readme).1 initState (started readme).2
                  ["200 15"; "an output packet"; "200 abc"; "x"]
                  toy_regular H2 H3)).
Defined.

Lemma scanLoop_totals_and_output_witness :
  let r := scanLoop (started readme).1 ["200 15"; "x"] (started readme).2 in
  r.1 = Ret tt
  ∧ totalLines r.2 = totalLines (started readme).2 + 2
  ∧ bytesRead r.2 = bytesRead (started readme).2 + 7
  ∧ stdout r.2 = ["200 15"; "x"].
Proof.
  intros r.
  assert (H : r = (Ret tt, r.2)) by (vm_compute; reflexivity).
  destruct (scanLoop_totals_and_output (E:=externals) (started readme).1
              ["200 15"; "x"] (started readme).2 r.2 H)
    as (Ht & Hb & _ & _ & Ho).
  split_and!; [by rewrite H|exact Ht|exact Hb|].
  exact (Ho eq_refl eq_refl).
Defined.

Lemma startup_registers_metrics_then_three_witness :
  startup readme initState = (Ret (started readme).1, (started readme).2)
  ∧ registry (started readme).2 =
    [("myMetrics_post", UserCollector 0);
     ("myMetrics_packetsOut", UserCollector 1);
     ("stdout2prom_lines_parsed_total", TotalLines);
     ("stdout2prom_bytes_read_total", BytesRead);
     ("stdout2prom_matched_lines_total", MatchedLines)]
  ∧ NoDup (registry (started readme).2).*1.
Proof.
  assert (H : startup readme initState
              = (Ret (started readme).1, (started readme).2))
    by (vm_compute; reflexivity).
  destruct (startup_registers_metrics_then_three (E:=externals) readme
              (started readme).1 initState (started readme).2 H)
    as [Hreg Hnd].
  split_and!; [exact H|exact Hreg|apply Hnd; apply NoDup_nil_2].
Defined.

Lemma uncompilable_pattern_aborts_startup_witness :
  (configured "broken" "(" EmptyString [] ∈ Metrics badPattern
   ∧ compile "(" = None)
  ∧ succeeds (main badPattern ["output packet"] initState).1 = false
  ∧ totalLines (main badPattern ["output packet"] initState).2 = 0.
Proof.
  assert (H1 : configured "broken" "(" EmptyString [] ∈ Metrics badPattern).
  { apply elem_of_cons. right. apply elem_of_cons. by left. }
  split; [by split|].
  destruct (uncompilable_pattern_aborts_startup (E:=externals) badPattern
              ["output packet"] initState _ H1 eq_refl)
    as (Hs & Ht & _).
  split; [exact Hs|exact Ht].
Defined.

Lemma unmatched_line_only_counted_witness :
  let s := (started twoCounters).2 in
  (Forall (fun m => is_Some (Compiled m)) (Metrics (started twoCounters).1)
   ∧ existsb (matches "hello") (Metrics (started twoCounters).1) = false)
  ∧ processLine (started twoCounters).1 "hello" s
    = (Ret tt,
       set_stdout ["hello"] (set_bytesRead 5 (set_totalLines 1 s))).
Proof.
  intros s.
  assert (H1 : Forall (fun m => is_Some (Compiled m))
                 (Metrics (started twoCounters).1)).
  { destruct started_twoCounters as [_ ->].
    repeat constructor; by eexists. }
  assert (H2 : existsb (matches "hello") (Metrics (started twoCounters).1)
               = false) by (vm_compute; reflexivity).
  split; [by split|].
  exact (unmatched_line_only_counted (E:=externals) (started twoCounters).1
           "hello" s H1 H2).
Defined.

Lemma flag_gauge_without_group_aborts_witness :
  let s := (flagStarted flagConfig).2 in
  (GaugeFlag.Gauge_ flagNoGroup = true
   ∧ length (findStringSubmatch (Literal "packet") "a packet") = 1)
  ∧ GaugeFlag.processMetric "a packet" false flagNoGroup s
    = (Panic (IndexOutOfRange 1 1), set_matchedLines 1 s).
Proof.
  intros s. split; [by split|].
  exact (flag_gauge_without_group_aborts (E:=externals) "a packet" false
           flagNoGroup s (Literal "packet") eq_refl eq_refl eq_refl).
Defined.

Lemma flag_gauge_first_submatch_witness :
  let s := (flagStarted flagConfig).2 in
  (GaugeFlag.Gauge_ flagCodeStarted = true
   ∧ heap s !! 0 = Some (@Gauge externals 0%Z))
  ∧ (∃ s1, GaugeFlag.processMetric "200 15" false flagCodeStarted s
           = (Ret true, s1)
       ∧ heap s1 = [@Gauge externals 200%Z; Counter 0]
       ∧ badFloats s1 = 0)
  ∧ (∃ s1, GaugeFlag.processMetric "abc 15" false flagCodeStarted s
           = (Ret true, s1)
       ∧ heap s1 = heap s
       ∧ badFloats s1 = 1).
Proof.
  intros s.
  assert (H5 : heap s !! 0 = Some (@Gauge externals 0%Z)) by reflexivity.
  split; [by split|]. split.
  - destruct (flag_gauge_first_submatch (E:=externals) "200 15" false
                flagCodeStarted s (Fields ["returncode"; "response"]) "200"
                0 0%Z eq_refl eq_refl eq_refl eq_refl H5)
      as (s1 & Hrun & _ & Hcase).
    exists s1. change (parseFloat "200") with (Some 200%Z) in Hcase.
    destruct Hcase as [Hh Hb]. split_and!; [exact Hrun|exact Hh|exact Hb].
  - destruct (flag_gauge_first_submatch (E:=externals) "abc 15" false
                flagCodeStarted s (Fields ["returncode"; "response"]) "abc"
                0 0%Z eq_refl eq_refl eq_refl eq_refl H5)
      as (s1 & Hrun & _ & Hcase).
    exists s1. change (parseFloat "abc") with (@None Z) in Hcase.
    destruct Hcase as [Hh Hb]. split_and!; [exact Hrun|exact Hh|exact Hb].
Defined.

Lemma flag_configuration_with_groups_never_panics_witness :
  (regular (E:=externals)
   ∧ GaugeFlag.startup flagConfig initState
     = (Ret (flagStarted flagConfig).1, (flagStarted flagConfig).2)
   ∧ Forall flagConsistent (GaugeFlag.Metrics (flagStarted flagConfig).1))
  ∧ succeeds
      (GaugeFlag.main flagConfig ["200 15"; "a packet"; "abc 1"; "x"]
         initState).1 = true.
Proof.
  assert (H2 : GaugeFlag.startup flagConfig initState
               = (Ret (flagStarted flagConfig).1, (flagStarted flagConfig).2))
    by (vm_compute; reflexivity).
  assert (H3 : Forall flagConsistent
                 (GaugeFlag.Metrics (flagStarted flagConfig).1)).
  { destruct started_metrics as (_ & _ & ->).
    constructor; [|constructor; [|constructor]].
    - intros _ re [= <-]. simpl. lia.
    - intros Hg. discriminate Hg. }
  split; [split_and!; [exact toy_regular|exact H2|exact H3]|].
  destruct (flag_configuration_with_groups_never_panics (E:=externals)
              flagConfig (flagStarted flagConfig).1 initState
              (flagStarted flagConfig).2
              ["200 15"; "a packet"; "abc 1"; "x"] toy_regular H2 H3)
    as (_ & _ & Hmain).
  exact Hmain.
Defined.

Lemma flag_processLine_completed_witness :
  let s := (flagStarted flagConfig).2 in
  let r := GaugeFlag.processLine (flagStarted flagConfig).1 "packet 7" s in
  r.1 = Ret tt
  ∧ totalLines r.2 = totalLines s + 1
  ∧ matchedLines r.2 = matchedLines s + 2
  ∧ stdout r.2 = ["packet 7"].
Proof.
  intros s r.
  assert (H : r = (Ret tt, r.2)) by (vm_compute; reflexivity).
  destruct (flag_processLine_completed (E:=externals)
              (flagStarted flagConfig).1 "packet 7" s r.2 H)
    as (Ht & _ & Hm & Ho).
  split_and!; [by rewrite H|exact Ht|exact Hm|exact Ho].
Defined.

Lemma missing_value_group_always_aborts_witness :
  let metric := @mkMetric externals "post" EmptyString twoFields "latency" []
                  (Some 0) (Some (Fields ["returncode"; "response"]))
                  [EmptyString; "returncode"; "response"] in
  (Value metric ≠ EmptyString ∧ Value metric ∉ GroupName metric)
  ∧ processMetric "200 15" false metric initState
    = (Panic (IndexOutOfRange (-1) 3), set_matchedLines 1 initState).
Proof.
  intros metric.
  assert (H2 : length (findStringSubmatch (Fields ["returncode"; "response"])
                         "200 15") ≠ 0) by (vm_compute; lia).
  assert (H3 : Value metric ≠ EmptyString) by (vm_compute; discriminate).
  assert (H4 : Value metric ∉ GroupName metric).
  { intros Hin. simpl in Hin.
    repeat (apply elem_of_cons in Hin as [Heq|Hin]; [discriminate Heq|]).
    by apply elem_of_nil in Hin. }
  split; [by split|].
  exact (missing_value_group_always_aborts (E:=externals) "200 15" false
           metric initState (Fields ["returncode"; "response"])
           eq_refl H2 H3 H4).
Defined.

Lemma missing_label_always_aborts_witness :
  let metric := @mkMetric externals "post" EmptyString twoFields EmptyString
                  ["status"] (Some 0)
                  (Some (Fields ["returncode"; "response"]))
                  [EmptyString; "returncode"; "response"] in
  let s := (started missingLabel).2 in
  ("status" ∈ Labels metric ∧ "status" ∉ GroupName metric
   ∧ heap s !! 0 = Some (CounterVec ["status"] ∅))
  ∧ ∃ s1, processMetric "200 15" false metric s
          = (Panic InconsistentCardinality, s1)
      ∧ logged s1 = ["problems finding labels"]
      ∧ heap s1 = heap s.
Proof.
  intros metric s.
  assert (H2 : length (findStringSubmatch (Fields ["returncode"; "response"])
                         "200 15") ≠ 0) by (vm_compute; lia).
  assert (H4 : (length (GroupName metric)
                ≤ length (findStringSubmatch
                            (Fields ["returncode"; "response"]) "200 15"))%nat)
    by (vm_compute; lia).
  assert (H5 : "status" ∈ Labels metric) by (apply elem_of_cons; by left).
  assert (H6 : "status" ∉ GroupName metric).
  { intros Hin. simpl in Hin.
    repeat (apply elem_of_cons in Hin as [Heq|Hin]; [discriminate Heq|]).
    by apply elem_of_nil in Hin. }
  assert (H8 : heap s !! 0 = Some (CounterVec ["status"] ∅)) by reflexivity.
  split; [by split_and!|].
  destruct (missing_label_always_aborts (E:=externals) "200 15" false metric
              s (Fields ["returncode"; "response"]) "status" 0 ∅
              eq_refl H2 eq_refl H4 H5 H6 eq_refl H8)
    as (s1 & Hrun & Hlog & Hheap & _).
  exists s1. split_and!; [exact Hrun|exact Hlog|exact Hheap].
Defined.

End Runs.
